(** * ElastiCache: a facade over a Redis client

    A shallow embedding of [Elasticache.js].  Every method of the class is an
    [async] function around calls of a node-redis client; the embedding keeps
    that shape: a method is a computation in the monad [Async], which threads
    the world (the store behind the client, the commands issued so far and
    the console) and either fulfils with a value or rejects with a thrown
    object.

    The Redis client and the host's [JSON] object are not code of this
    repository: the client is a record of handlers ([RedisClient]) and the
    codec a pair of functions ([Codec]); the facade is generic in both.  An
    in-memory client and a small JSON codec at the end of the definitions
    play the part of the local server of [redis.test.js]. *)

From Stdlib Require Import ZArith String Ascii List Bool Lia.
From Stdlib Require Import DecimalString DecimalZ DecimalPos.
From stdpp Require Import gmap strings list fin_maps.

#[local] Set Warnings "-register-all".

Local Open Scope string_scope.
Local Open Scope Z_scope.

(** ** Values of the host language *)

(** The JavaScript values the facade handles: what a caller passes as the
    [value] of a write, what [JSON.parse] returns, the raw strings read from
    the store, the arrays and objects the facade builds from them, and
    [undefined].  An object is the list of its own enumerable properties in
    property order.  Numbers are integers; a BigInt is a value of its own. *)
Inductive JsValue : Type :=
| VUndefined
| VNull
| VBool (b : bool)
| VNum (n : Z)
| VBigInt (n : Z)
| VStr (s : string)
| VArr (items : list JsValue)
| VObj (props : list (string * JsValue)).

(** [JSON.stringify] and [JSON.parse].  [JSON.stringify] returns the text of
    the value, returns [undefined] for a value with no JSON text
    ([inr None]), or throws ([inl], the thrown error: a [TypeError] on a
    BigInt or a cyclic structure, or whatever a [toJSON] method throws).
    [JSON.parse] throws on malformed text. *)
Record NativeError := mkNativeError { ne_name : string; ne_message : string }.

Class Codec := {
  JSON_stringify : JsValue -> NativeError + option string;
  JSON_parse : string -> NativeError + JsValue
}.

(** ** Errors *)

(** [class HttpError extends Error]: [message], [statusCode] and the optional
    underlying [error].  The type of thrown objects is the parameter [T]. *)
Record HttpErrorOf (T : Type) := mkHttpError {
  message : string;
  statusCode : Z;
  error : option T
}.
Arguments mkHttpError {T} _ _ _.
Arguments message {T} _.
Arguments statusCode {T} _.
Arguments error {T} _.

(** What a [catch] clause can receive: an [HttpError] of this layer, or any
    other error object (a client error, a [SyntaxError] of [JSON.parse], a
    [ReferenceError]). *)
Inductive Thrown : Type :=
| HttpErr (e : HttpErrorOf Thrown)
| Native (e : NativeError).

Definition HttpError : Type := HttpErrorOf Thrown.

(** [new HttpError(message, statusCode)] and
    [new HttpError(message, statusCode, error)]. *)
Definition new_HttpError (msg : string) (code : Z) : Thrown :=
  HttpErr (mkHttpError msg code None).
Definition new_HttpError3 (msg : string) (code : Z) (err : Thrown) : Thrown :=
  HttpErr (mkHttpError msg code (Some err)).

(** [err instanceof HttpError] *)
Definition instanceof_HttpError (err : Thrown) : bool :=
  match err with
  | HttpErr _ => true
  | Native _ => false
  end.

(** ** The Redis client *)

(** The commands of node-redis the facade sends.  A text argument produced by
    [JSON.stringify] is an [option string], as the facade passes on whatever
    [JSON.stringify] returned. *)
Inductive Command : Type :=
| CmdConnect
| CmdDisconnect
| CmdSet (key : string) (text : option string) (ex : option Z)
| CmdGet (key : string)
| CmdDel (key : string)
| CmdRPush (key : string) (text : option string)
| CmdRPop (key : string)
| CmdLRem (key : string) (count : Z) (text : option string)
| CmdLRange (key : string) (start stop : Z)
| CmdKeys (pattern : string)
| CmdHSet (key field : string) (text : option string)
| CmdHGet (key field : string)
| CmdHGetAll (key : string)
| CmdHDel (key field : string)
| CmdExpire (key : string) (seconds : Z)
| CmdType (key : string)
| CmdTtl (key : string).

(** A reply of the client: the promise of a call rejects with a client error
    or fulfils with the reply, and the store moves on. *)
Definition Reply (S A : Type) : Type := S -> (NativeError + A) * S.

(** The part of the node-redis client the facade uses, over a store state
    [S].  Replies have the types the facade tests them at: [null] or a string
    for [get], [rPop] and [hGet]; a number for [del], [lRem], [hDel],
    [expire] and [ttl]; an array of strings for [lRange] and [keys]; [null]
    or an object of strings for [hGetAll]; a string for [type]. *)
Record RedisClient (S : Type) := {
  c_connect : Reply S unit;
  c_disconnect : Reply S unit;
  c_set : string -> option string -> option Z -> Reply S unit;
  c_get : string -> Reply S (option string);
  c_del : string -> Reply S Z;
  c_rPush : string -> option string -> Reply S Z;
  c_rPop : string -> Reply S (option string);
  c_lRem : string -> Z -> option string -> Reply S Z;
  c_lRange : string -> Z -> Z -> Reply S (list string);
  c_keys : string -> Reply S (list string);
  c_hSet : string -> string -> option string -> Reply S Z;
  c_hGet : string -> string -> Reply S (option string);
  c_hGetAll : string -> Reply S (option (list (string * string)));
  c_hDel : string -> string -> Reply S Z;
  c_expire : string -> Z -> Reply S Z;
  c_type : string -> Reply S string;
  c_ttl : string -> Reply S Z
}.
Arguments c_connect {S} _.
Arguments c_disconnect {S} _.
Arguments c_set {S} _ _ _ _.
Arguments c_get {S} _ _.
Arguments c_del {S} _ _.
Arguments c_rPush {S} _ _ _.
Arguments c_rPop {S} _ _.
Arguments c_lRem {S} _ _ _ _.
Arguments c_lRange {S} _ _ _ _.
Arguments c_keys {S} _ _.
Arguments c_hSet {S} _ _ _ _.
Arguments c_hGet {S} _ _ _.
Arguments c_hGetAll {S} _ _.
Arguments c_hDel {S} _ _ _.
Arguments c_expire {S} _ _ _.
Arguments c_type {S} _ _.
Arguments c_ttl {S} _ _.

(** ** The monad of [async] methods *)

(** A line of the console: [console.log(text)] or
    [console.error(text, err)]. *)
Inductive ConsoleLine : Type :=
| LogLine (text : string)
| ErrorLine (text : string) (err : Thrown).

(** The world a method runs in: the store behind the client, the commands
    sent to it so far (oldest first) and the console. *)
Record World (S : Type) := mkWorld {
  store : S;
  issued : list Command;
  console : list ConsoleLine
}.
Arguments mkWorld {S} _ _ _.
Arguments store {S} _.
Arguments issued {S} _.
Arguments console {S} _.

(** A settled promise. *)
Inductive Settled (A : Type) : Type :=
| Fulfilled (a : A)
| Rejected (err : Thrown).
Arguments Fulfilled {A} _.
Arguments Rejected {A} _.

Definition Async (S A : Type) : Type := World S -> Settled A * World S.

Section AsyncMonad.
Context {S : Type}.

Definition ret {A} (a : A) : Async S A := fun w => (Fulfilled a, w).

Definition throw {A} (err : Thrown) : Async S A := fun w => (Rejected err, w).

Definition bind {A B} (m : Async S A) (k : A -> Async S B) : Async S B :=
  fun w =>
    match m w with
    | (Fulfilled a, w') => k a w'
    | (Rejected err, w') => (Rejected err, w')
    end.

(** [try { body } catch (err) { handler }] *)
Definition try_catch {A} (body : Async S A) (handler : Thrown -> Async S A)
  : Async S A :=
  fun w =>
    match body w with
    | (Fulfilled a, w') => (Fulfilled a, w')
    | (Rejected err, w') => handler err w'
    end.

(** [await this.client.cmd(...)]: the command is sent, the store answers. *)
Definition call {A} (cmd : Command) (reply : Reply S A) : Async S A :=
  fun w =>
    let (r, s') := reply (store w) in
    let w' := mkWorld s' (issued w ++ [cmd]) (console w) in
    match r with
    | inr a => (Fulfilled a, w')
    | inl e => (Rejected (Native e), w')
    end.

Definition console_log (text : string) : Async S unit :=
  fun w => (Fulfilled tt,
            mkWorld (store w) (issued w) (console w ++ [LogLine text])).

Definition console_error (text : string) (err : Thrown) : Async S unit :=
  fun w => (Fulfilled tt,
            mkWorld (store w) (issued w) (console w ++ [ErrorLine text err])).

(** [if (cond) stmt] with no [else]. *)
Definition when (cond : bool) (stmt : Async S unit) : Async S unit :=
  if cond then stmt else ret tt.

(** The promises of [ps], started in order and run to completion: what
    [list.map(x => this.method(x))] leaves behind once every reply has
    come in.  The client answers the commands of one connection in the
    order they were sent, so the members settle in that order. *)
Fixpoint settle_all {A} (ps : list (Async S A)) (w : World S)
  : list (Settled A) * World S :=
  match ps with
  | [] => ([], w)
  | p :: rest =>
      let (r, w1) := p w in
      let (rs, w2) := settle_all rest w1 in
      (r :: rs, w2)
  end.

(** The outcome of [Promise.all] on settled members: every value, in the
    order of the members, or the first rejection. *)
Fixpoint join_all {A} (rs : list (Settled A)) : Settled (list A) :=
  match rs with
  | [] => Fulfilled []
  | Rejected err :: _ => Rejected err
  | Fulfilled a :: rest =>
      match join_all rest with
      | Fulfilled vs => Fulfilled (a :: vs)
      | Rejected err => Rejected err
      end
  end.

(** [await Promise.all(ps)] *)
Definition Promise_all {A} (ps : list (Async S A)) : Async S (list A) :=
  fun w => let (rs, w') := settle_all ps w in (join_all rs, w').

(** [list.map(f)] for an [f] that may throw: stops at the first throw. *)
Fixpoint map_throwing {A B} (f : A -> Async S B) (l : list A)
  : Async S (list B) :=
  match l with
  | [] => ret []
  | x :: rest =>
      bind (f x) (fun y => bind (map_throwing f rest) (fun ys => ret (y :: ys)))
  end.
End AsyncMonad.

Declare Scope async_scope.
Delimit Scope async_scope with async.
Notation "'let*' x ':=' c1 'in' c2" := (bind c1 (fun x => c2))
  (at level 10, x pattern, c1 at level 100, c2 at level 200) : async_scope.
Notation "c1 ;; c2" := (bind c1 (fun _ => c2))
  (at level 100, c2 at level 200, right associativity) : async_scope.
Local Open Scope async_scope.

(** ** The facade *)

Module ElastiCache.

(** An instance: [this.client] and [this.dev]. *)
Record t (S : Type) := new {
  client : RedisClient S;
  dev : bool
}.
Arguments new {S} _ _.
Arguments client {S} _.
Arguments dev {S} _.

Section Methods.
Context {S : Type} {codec : Codec} (this : t S).

(** [JSON.parse(text)], which throws on malformed text. *)
Definition JSON_parse_or_throw (text : string) : Async S JsValue :=
  match JSON_parse text with
  | inr v => ret v
  | inl e => throw (Native e)
  end.

(** [JSON.stringify(value)] as an argument of a client call: it is evaluated
    before the call is made, and what it throws is thrown in its place. *)
Definition JSON_stringify_or_throw (value : JsValue)
  : Async S (option string) :=
  match JSON_stringify value with
  | inr text => ret text
  | inl e => throw (Native e)
  end.

(** [ttl ? { EX: ttl } : undefined]: [null], [undefined] and [0] are falsy. *)
Definition set_options (ttl : option Z) : option Z :=
  match ttl with
  | Some seconds => if seconds =? 0 then None else Some seconds
  | None => None
  end.

(** The template literal of the log line of [hashGetAll] reads [field],
    which no scope of that method binds: evaluating it throws. *)
Definition ReferenceError_field : NativeError :=
  mkNativeError "ReferenceError" "field is not defined".

Definition connect : Async S unit :=
  try_catch
    (call CmdConnect (c_connect (client this)) ;;
     when (dev this) (console_log "Connected to Redis"))
    (fun err =>
       when (dev this) (console_error "Redis connection failed" err) ;;
       throw (new_HttpError3 "Redis connection failed" 500 err)).

Definition disconnect : Async S unit :=
  try_catch
    (call CmdDisconnect (c_disconnect (client this)) ;;
     when (dev this) (console_log "Disconnected from Redis"))
    (fun err =>
       when (dev this) (console_error "Redis disconnection failed" err) ;;
       throw (new_HttpError "Redis disconnection failed" 500)).

Definition set (key : string) (value : JsValue) (ttl : option Z)
  : Async S unit :=
  try_catch
    (let options := set_options ttl in
     let* text := JSON_stringify_or_throw value in
     call (CmdSet key text options) (c_set (client this) key text options) ;;
     when (dev this) (console_log ("Set value for key: " +:+ key)))
    (fun err =>
       when (dev this) (console_error "Error setting value in Redis:" err) ;;
       throw (new_HttpError "Error saving to Redis" 500)).

Definition get (key : string) (parse : option bool) : Async S JsValue :=
  let parse := default false parse in
  try_catch
    (let* value := call (CmdGet key) (c_get (client this) key) in
     match value with
     | None =>
         when (dev this) (console_log ("Key not found: " +:+ key)) ;;
         throw (new_HttpError "Key not found" 404)
     | Some text =>
         if parse then JSON_parse_or_throw text else ret (VStr text)
     end)
    (fun err =>
       when (dev this) (console_error "Error getting value from Redis:" err) ;;
       if instanceof_HttpError err then throw err
       else throw (new_HttpError "Error fetching from Redis" 500)).

Definition delete (key : string) : Async S unit :=
  try_catch
    (let* result := call (CmdDel key) (c_del (client this) key) in
     (if result =? 0 then
        when (dev this) (console_log ("Key not found: " +:+ key)) ;;
        throw (new_HttpError "Key not found" 404)
      else ret tt) ;;
     when (dev this) (console_log ("Deleted key: " +:+ key)))
    (fun err =>
       when (dev this) (console_error "Error deleting from Redis:" err) ;;
       if instanceof_HttpError err then throw err
       else throw (new_HttpError "Error deleting from Redis" 500)).

Definition listPush (key : string) (value : JsValue) : Async S unit :=
  try_catch
    (let* text := JSON_stringify_or_throw value in
     call (CmdRPush key text) (c_rPush (client this) key text) ;;
     when (dev this) (console_log ("Pushed value to list: " +:+ key)))
    (fun err =>
       when (dev this) (console_error "Error pushing to Redis list:" err) ;;
       throw (new_HttpError "Error pushing to Redis list" 500)).

Definition listPop (key : string) (parse : option bool) : Async S JsValue :=
  let parse := default false parse in
  try_catch
    (let* value := call (CmdRPop key) (c_rPop (client this) key) in
     match value with
     | None =>
         when (dev this) (console_log ("List is empty: " +:+ key)) ;;
         throw (new_HttpError "List is empty" 404)
     | Some text =>
         if parse then JSON_parse_or_throw text else ret (VStr text)
     end)
    (fun err =>
       when (dev this) (console_error "Error popping from Redis list:" err) ;;
       if instanceof_HttpError err then throw err
       else throw (new_HttpError "Error popping from Redis list" 500)).

Definition listRemove (key : string) (value : JsValue) : Async S unit :=
  try_catch
    (let* text := JSON_stringify_or_throw value in
     let* removed :=
       call (CmdLRem key 0 text) (c_lRem (client this) key 0 text) in
     (if removed =? 0 then
        when (dev this) (console_log ("Value not found in list: " +:+ key)) ;;
        throw (new_HttpError "Value not found in list" 404)
      else ret tt) ;;
     when (dev this) (console_log ("Removed value from list: " +:+ key)))
    (fun err =>
       when (dev this) (console_error "Error removing from Redis list:" err) ;;
       if instanceof_HttpError err then throw err
       else throw (new_HttpError "Error removing from Redis list" 500)).

(** The [catch] clause of [listGet] has no [instanceof] test: whatever the
    [try] block throws is replaced. *)
Definition listGet (key : string) (start stop : option Z)
  (parse : option bool) : Async S JsValue :=
  let start := default 0 start in
  let stop := default (-1) stop in
  let parse := default false parse in
  try_catch
    (let* values :=
       call (CmdLRange key start stop) (c_lRange (client this) key start stop) in
     (if (length values =? 0)%nat then
        when (dev this) (console_log ("List is empty: " +:+ key)) ;;
        throw (new_HttpError "List is empty" 404)
      else ret tt) ;;
     if parse then
       let* parsed := map_throwing JSON_parse_or_throw values in
       ret (VArr parsed)
     else ret (VArr (VStr <$> values)))
    (fun err =>
       when (dev this) (console_error "Error fetching from Redis list:" err) ;;
       throw (new_HttpError "Error fetching from Redis list" 500)).

Definition getByPrefix (prefix : string) : Async S JsValue :=
  try_catch
    (let pattern := prefix +:+ ":*" in
     let* keys := call (CmdKeys pattern) (c_keys (client this) pattern) in
     (if (length keys =? 0)%nat then
        when (dev this)
          (console_log ("Index not found with prefix: " +:+ prefix)) ;;
        throw (new_HttpError "Index not found" 404)
      else ret tt) ;;
     let* values := Promise_all ((fun key => get key (Some true)) <$> keys) in
     ret (VArr (imap (fun index key =>
                        VObj [(key, default VUndefined (values !! index))])
                     keys)))
    (fun err =>
       when (dev this) (console_error "Error fetching keys by prefix:" err) ;;
       if instanceof_HttpError err then throw err
       else throw (new_HttpError "Error fetching keys by prefix" 500)).

Definition hashSet (key field : string) (value : JsValue) : Async S unit :=
  try_catch
    (let* text := JSON_stringify_or_throw value in
     call (CmdHSet key field text) (c_hSet (client this) key field text) ;;
     when (dev this) (console_log ("Set value for field: " +:+ field)))
    (fun err =>
       when (dev this) (console_error "Error saving to Redis hash:" err) ;;
       throw (new_HttpError "Error saving to Redis hash" 500)).

Definition hashGet (key field : string) (parse : option bool)
  : Async S JsValue :=
  let parse := default false parse in
  try_catch
    (let* value := call (CmdHGet key field) (c_hGet (client this) key field) in
     match value with
     | None =>
         when (dev this) (console_log ("Field not found: " +:+ field)) ;;
         throw (new_HttpError "Field not found" 404)
     | Some text =>
         if parse then JSON_parse_or_throw text else ret (VStr text)
     end)
    (fun err =>
       when (dev this) (console_error "Error fetching from Redis hash:" err) ;;
       if instanceof_HttpError err then throw err
       else throw (new_HttpError "Error fetching from Redis hash" 500)).

(** [Object.fromEntries(Object.entries(value).map(([k, v]) => [k, f(v)]))]
    on an object given by its properties in order. *)
Definition map_entries (f : string -> Async S JsValue)
  (props : list (string * string)) : Async S (list (string * JsValue)) :=
  map_throwing (fun '(k, v) => let* v' := f v in ret (k, v')) props.

Definition hashGetAll (key : string) (parse : option bool) : Async S JsValue :=
  let parse := default false parse in
  try_catch
    (let* value := call (CmdHGetAll key) (c_hGetAll (client this) key) in
     match value with
     | None =>
         (if dev this then throw (Native ReferenceError_field) else ret tt) ;;
         throw (new_HttpError "Field not found" 404)
     | Some props =>
         if parse then
           let* parsed := map_entries JSON_parse_or_throw props in
           ret (VObj parsed)
         else ret (VObj (prod_map id VStr <$> props))
     end)
    (fun err =>
       when (dev this) (console_error "Error finding the Redis hash:" err) ;;
       if instanceof_HttpError err then throw err
       else throw (new_HttpError "Error finding the Redis hash" 500)).

Definition hashDelete (key field : string) : Async S unit :=
  try_catch
    (let* result := call (CmdHDel key field) (c_hDel (client this) key field) in
     (if result =? 0 then
        when (dev this) (console_log ("Field not found: " +:+ field)) ;;
        throw (new_HttpError "Field not found" 404)
      else ret tt) ;;
     when (dev this) (console_log ("Deleted field: " +:+ field)))
    (fun err =>
       when (dev this) (console_error "Error deleting from Redis hash:" err) ;;
       if instanceof_HttpError err then throw err
       else throw (new_HttpError "Error deleting from Redis hash" 500)).

(** The [catch] clause of [refreshKey] rethrows an [HttpError] and ends
    without a [throw] for anything else. *)
Definition refreshKey (key : string) (ttl : Z) : Async S unit :=
  try_catch
    (let* result := call (CmdExpire key ttl) (c_expire (client this) key ttl) in
     (if result =? 0 then
        when (dev this) (console_log ("Key not found: " +:+ key)) ;;
        throw (new_HttpError "Key not found" 404)
      else ret tt) ;;
     when (dev this) (console_log ("Refreshed key: " +:+ key)))
    (fun err =>
       when (dev this) (console_error "Error refreshing key in Redis:" err) ;;
       if instanceof_HttpError err then throw err else ret tt).

(** The body of [for (const key of keys)] in [getAll], with [values] the
    array filled so far. *)
Fixpoint getAll_loop (keys : list string) (values : list JsValue)
  : Async S (list JsValue) :=
  match keys with
  | [] => ret values
  | key :: rest =>
      let* type := call (CmdType key) (c_type (client this) key) in
      if String.eqb type "string" then
        let* v := get key (Some true) in
        getAll_loop rest (values ++ [VObj [(key, v)]])
      else if String.eqb type "list" then
        let* v := listGet key (Some 0) (Some (-1)) (Some true) in
        getAll_loop rest (values ++ [VObj [(key, v)]])
      else if String.eqb type "hash" then
        let* v := hashGetAll key (Some true) in
        getAll_loop rest (values ++ [VObj [(key, v)]])
      else getAll_loop rest values
  end.

Definition getAll : Async S JsValue :=
  try_catch
    (let* keys := call (CmdKeys "*") (c_keys (client this) "*") in
     (if (length keys =? 0)%nat then
        when (dev this) (console_log "No keys found") ;;
        throw (new_HttpError "No keys found" 404)
      else ret tt) ;;
     let* values := getAll_loop keys [] in
     ret (VArr values))
    (fun err =>
       when (dev this) (console_error "Error fetching all keys from Redis:" err) ;;
       if instanceof_HttpError err then throw err
       else throw (new_HttpError "Error fetching all keys from Redis" 500)).

Definition getTimeToLive (key : string) : Async S JsValue :=
  try_catch
    (let* ttl := call (CmdTtl key) (c_ttl (client this) key) in
     (if ttl =? -2 then
        when (dev this) (console_log ("Key not found: " +:+ key)) ;;
        throw (new_HttpError "Key not found" 404)
      else ret tt) ;;
     ret (VNum ttl))
    (fun err =>
       when (dev this) (console_error "Error fetching TTL from Redis:" err) ;;
       if instanceof_HttpError err then throw err
       else throw (new_HttpError "Error fetching TTL from Redis" 500)).

Definition deleteAll (pattern : option string) : Async S unit :=
  let pattern := default "*" pattern in
  try_catch
    (let* keys := call (CmdKeys pattern) (c_keys (client this) pattern) in
     (if (length keys =? 0)%nat then
        when (dev this) (console_log "No keys found") ;;
        throw (new_HttpError "No keys found" 404)
      else ret tt) ;;
     Promise_all (delete <$> keys) ;;
     when (dev this)
       (console_log ("Deleted all keys matching pattern: " +:+ pattern)))
    (fun err =>
       when (dev this) (console_error "Error deleting all keys from Redis:" err) ;;
       if instanceof_HttpError err then throw err
       else throw (new_HttpError "Error deleting all keys from Redis" 500)).

End Methods.
End ElastiCache.

(** ** An in-memory Redis

    The tests of the repository run the facade against a local server.  This
    client keeps the data set in memory and answers as that server does, for
    the commands and the argument shapes the facade uses.  No time passes
    between two commands, so a key with a TTL stays until it is deleted. *)

Module MemRedis.

Inductive Entry : Type :=
| EString (text : string)
| EList (items : list string)
| EHash (fields : list (string * string)).

Record Store := mkStore {
  connected : bool;
  db : gmap string Entry;
  ttls : gmap string Z
}.

Definition ClientClosedError : NativeError :=
  mkNativeError "ClientClosedError" "The client is closed".
Definition SocketOpenError : NativeError :=
  mkNativeError "Error" "Socket already opened".
Definition WrongType : NativeError :=
  mkNativeError "ErrorReply"
    "WRONGTYPE Operation against a key holding the wrong kind of value".
Definition InvalidArgument : NativeError :=
  mkNativeError "TypeError" "Invalid argument type".
Definition InvalidExpire : NativeError :=
  mkNativeError "ErrorReply" "ERR invalid expire time in 'set' command".

(** A command on an open connection; a closed client rejects every one. *)
Definition online {A} (f : Store -> (NativeError + A) * Store) : Reply Store A :=
  fun s => if connected s then f s else (inl ClientClosedError, s).

Definition with_db (s : Store) (d : gmap string Entry) : Store :=
  mkStore (connected s) d (ttls s).

Definition drop_key (key : string) (s : Store) : Store :=
  mkStore (connected s) (base.delete key (db s)) (base.delete key (ttls s)).

(** Glob patterns of [KEYS]: [*], [?], an escaped character and literals. *)
Fixpoint glob (pattern text : list ascii) : bool :=
  match pattern with
  | [] => match text with [] => true | _ => false end
  | "*"%char :: pattern' =>
      (fix star (text : list ascii) : bool :=
         glob pattern' text
         || match text with
            | [] => false
            | _ :: text' => star text'
            end) text
  | "?"%char :: pattern' =>
      match text with
      | [] => false
      | _ :: text' => glob pattern' text'
      end
  | "092"%char :: c :: pattern' =>
      match text with
      | [] => false
      | c' :: text' => Ascii.eqb c c' && glob pattern' text'
      end
  | c :: pattern' =>
      match text with
      | [] => false
      | c' :: text' => Ascii.eqb c c' && glob pattern' text'
      end
  end.

Definition matches (pattern key : string) : bool :=
  glob (list_ascii_of_string pattern) (list_ascii_of_string key).

(** An index of [LRANGE]: a negative one counts from the tail. *)
Definition from_head (len index : Z) : Z :=
  if index <? 0 then len + index else index.

(** [LRANGE]: a start before the head is the head, a stop past the tail is
    the tail, and a range that ends before it starts, or starts past the
    tail, is empty. *)
Definition lrange (items : list string) (start stop : Z) : list string :=
  let len := Z.of_nat (length items) in
  let first := Z.max 0 (from_head len start) in
  let last := from_head len stop in
  if (last <? first) || (len <=? first) then []
  else
    take (Z.to_nat (Z.min last (len - 1) - first + 1))
         (drop (Z.to_nat first) items).

(** [LREM key count text]: every occurrence when [count] is 0, the first
    [count] from the head when it is positive, from the tail otherwise. *)
Fixpoint remove_upto (n : nat) (text : string) (items : list string)
  : list string :=
  match items, n with
  | [], _ => []
  | x :: rest, O => x :: rest
  | x :: rest, Datatypes.S n' =>
      if String.eqb x text then remove_upto n' text rest
      else x :: remove_upto n text rest
  end.

Definition lrem (count : Z) (text : string) (items : list string)
  : list string :=
  if count =? 0 then filter (fun x => x ≠ text) items
  else if 0 <? count then remove_upto (Z.to_nat count) text items
  else rev (remove_upto (Z.to_nat (- count)) text (rev items)).

Fixpoint hset (field text : string) (fields : list (string * string))
  : list (string * string) :=
  match fields with
  | [] => [(field, text)]
  | (f, v) :: rest =>
      if String.eqb f field then (f, text) :: rest
      else (f, v) :: hset field text rest
  end.

Definition hget (field : string) (fields : list (string * string))
  : option string :=
  snd <$> List.find (fun fv => String.eqb (fst fv) field) fields.

Definition hdel (field : string) (fields : list (string * string))
  : list (string * string) :=
  List.filter (fun fv => negb (String.eqb (fst fv) field)) fields.

(** An aggregate left empty is deleted with its key. *)
Definition put_list (key : string) (items : list string) (s : Store) : Store :=
  match items with
  | [] => drop_key key s
  | _ => with_db s (<[key := EList items]> (db s))
  end.

Definition put_hash (key : string) (fields : list (string * string))
  (s : Store) : Store :=
  match fields with
  | [] => drop_key key s
  | _ => with_db s (<[key := EHash fields]> (db s))
  end.

Definition client : RedisClient Store := {|
  c_connect := fun s =>
    if connected s then (inl SocketOpenError, s)
    else (inr tt, mkStore true (db s) (ttls s));
  c_disconnect := online (fun s => (inr tt, mkStore false (db s) (ttls s)));
  c_set := fun key text ex => online (fun s =>
    match text with
    | None => (inl InvalidArgument, s)
    | Some text =>
        match ex with
        | Some seconds =>
            if seconds <=? 0 then (inl InvalidExpire, s)
            else (inr tt, mkStore (connected s) (<[key := EString text]> (db s))
                            (<[key := seconds]> (ttls s)))
        | None =>
            (inr tt, mkStore (connected s) (<[key := EString text]> (db s))
                       (base.delete key (ttls s)))
        end
    end);
  c_get := fun key => online (fun s =>
    match db s !! key with
    | None => (inr None, s)
    | Some (EString text) => (inr (Some text), s)
    | Some _ => (inl WrongType, s)
    end);
  c_del := fun key => online (fun s =>
    match db s !! key with
    | None => (inr 0, s)
    | Some _ => (inr 1, drop_key key s)
    end);
  c_rPush := fun key text => online (fun s =>
    match text with
    | None => (inl InvalidArgument, s)
    | Some text =>
        match db s !! key with
        | None => (inr 1, with_db s (<[key := EList [text]]> (db s)))
        | Some (EList items) =>
            (inr (Z.of_nat (length items) + 1),
             with_db s (<[key := EList (items ++ [text])]> (db s)))
        | Some _ => (inl WrongType, s)
        end
    end);
  c_rPop := fun key => online (fun s =>
    match db s !! key with
    | None => (inr None, s)
    | Some (EList items) =>
        (inr (last items), put_list key (removelast items) s)
    | Some _ => (inl WrongType, s)
    end);
  c_lRem := fun key count text => online (fun s =>
    match text with
    | None => (inl InvalidArgument, s)
    | Some text =>
        match db s !! key with
        | None => (inr 0, s)
        | Some (EList items) =>
            let kept := lrem count text items in
            (inr (Z.of_nat (length items) - Z.of_nat (length kept)),
             put_list key kept s)
        | Some _ => (inl WrongType, s)
        end
    end);
  c_lRange := fun key start stop => online (fun s =>
    match db s !! key with
    | None => (inr [], s)
    | Some (EList items) => (inr (lrange items start stop), s)
    | Some _ => (inl WrongType, s)
    end);
  c_keys := fun pattern => online (fun s =>
    (inr (List.filter (matches pattern) (fst <$> map_to_list (db s))), s));
  c_hSet := fun key field text => online (fun s =>
    match text with
    | None => (inl InvalidArgument, s)
    | Some text =>
        match db s !! key with
        | None => (inr 1, with_db s (<[key := EHash [(field, text)]]> (db s)))
        | Some (EHash fields) =>
            (inr (match hget field fields with Some _ => 0 | None => 1 end),
             with_db s (<[key := EHash (hset field text fields)]> (db s)))
        | Some _ => (inl WrongType, s)
        end
    end);
  c_hGet := fun key field => online (fun s =>
    match db s !! key with
    | None => (inr None, s)
    | Some (EHash fields) => (inr (hget field fields), s)
    | Some _ => (inl WrongType, s)
    end);
  c_hGetAll := fun key => online (fun s =>
    match db s !! key with
    | None => (inr (Some []), s)
    | Some (EHash fields) => (inr (Some fields), s)
    | Some _ => (inl WrongType, s)
    end);
  c_hDel := fun key field => online (fun s =>
    match db s !! key with
    | None => (inr 0, s)
    | Some (EHash fields) =>
        (inr (match hget field fields with Some _ => 1 | None => 0 end),
         put_hash key (hdel field fields) s)
    | Some _ => (inl WrongType, s)
    end);
  c_expire := fun key seconds => online (fun s =>
    match db s !! key with
    | None => (inr 0, s)
    | Some _ =>
        if seconds <=? 0 then (inr 1, drop_key key s)
        else (inr 1, mkStore (connected s) (db s) (<[key := seconds]> (ttls s)))
    end);
  c_type := fun key => online (fun s =>
    match db s !! key with
    | None => (inr "none", s)
    | Some (EString _) => (inr "string", s)
    | Some (EList _) => (inr "list", s)
    | Some (EHash _) => (inr "hash", s)
    end);
  c_ttl := fun key => online (fun s =>
    match db s !! key with
    | None => (inr (-2), s)
    | Some _ => (inr (default (-1) (ttls s !! key)), s)
    end)
|}.

(** The client of a reader that holds a key listing taken earlier: [KEYS]
    answers [listing] whatever the data set holds now.  This is the window
    between the enumeration and the per-key commands of the composites. *)
Definition stale (listing : list string) (cl : RedisClient Store)
  : RedisClient Store := {|
  c_connect := c_connect cl;
  c_disconnect := c_disconnect cl;
  c_set := c_set cl;
  c_get := c_get cl;
  c_del := c_del cl;
  c_rPush := c_rPush cl;
  c_rPop := c_rPop cl;
  c_lRem := c_lRem cl;
  c_lRange := c_lRange cl;
  c_keys := fun _ => online (fun s => (inr listing, s));
  c_hSet := c_hSet cl;
  c_hGet := c_hGet cl;
  c_hGetAll := c_hGetAll cl;
  c_hDel := c_hDel cl;
  c_expire := c_expire cl;
  c_type := c_type cl;
  c_ttl := c_ttl cl
|}.

(** A fresh server with an open connection, and a world on it. *)
Definition empty : Store := mkStore true ∅ ∅.
Definition boot (s : Store) : World Store := mkWorld s [] [].

End MemRedis.

(** ** A JSON codec

    A codec for the tests: [JSON.stringify] and [JSON.parse] on the fragment
    of JSON that [JsValue] holds.  The text has no white space, strings are
    escaped as ECMAScript does, [undefined] has no text, is [null] inside an
    array and is left out of an object, and a BigInt anywhere in the value
    makes [stringify] throw.  The parser accepts white space between tokens.

    The fragment: a number is an integer that a double holds exactly (up to
    2^53 in absolute value), written in decimal notation; a string is a
    sequence of characters up to U+00FF; the names of the properties of an
    object are not array indices, so that the order of the properties is the
    order of the text.  Outside the fragment this codec is not the host's:
    it refuses a fraction, an exponent, a negative zero and an escape above
    U+00FF, which [JSON.parse] reads, and it reads and writes every digit of
    an integer that [JSON.parse] would round and [JSON.stringify] would
    write with an exponent.  The facade is generic in the codec; this one is
    used on values of the fragment. *)

Module Json.

Definition dquote : ascii := "034"%char.
Definition backslash : ascii := "092"%char.

Definition SyntaxError : NativeError :=
  mkNativeError "SyntaxError" "Unexpected token in JSON".
Definition TypeError_BigInt : NativeError :=
  mkNativeError "TypeError" "Do not know how to serialize a BigInt".

(** *** Printing *)

Definition hex_digit (n : nat) : ascii :=
  nth n (list_ascii_of_string "0123456789abcdef") "0"%char.

Definition escape_char (c : ascii) : string :=
  let n := nat_of_ascii c in
  if Ascii.eqb c dquote then String backslash (String dquote "")
  else if Ascii.eqb c backslash then String backslash (String backslash "")
  else if (n =? 8)%nat then String backslash "b"
  else if (n =? 9)%nat then String backslash "t"
  else if (n =? 10)%nat then String backslash "n"
  else if (n =? 12)%nat then String backslash "f"
  else if (n =? 13)%nat then String backslash "r"
  else if (n <? 32)%nat then
    String backslash
      (String "u" (String "0" (String "0"
         (String (hex_digit (n / 16)) (String (hex_digit (n mod 16)) "")))))
  else String c "".

Fixpoint escape (s : string) : string :=
  match s with
  | EmptyString => ""
  | String c s' => escape_char c +:+ escape s'
  end.

Definition quote (s : string) : string :=
  String dquote (escape s +:+ String dquote "").

Definition print_number (n : Z) : string :=
  DecimalString.NilZero.string_of_int (Z.to_int n).

Fixpoint join (sep : string) (parts : list string) : string :=
  match parts with
  | [] => ""
  | [part] => part
  | part :: rest => part +:+ sep +:+ join sep rest
  end.

(** The texts of the parts of a value, or the first error among them. *)
Fixpoint collect {A} (parts : list (NativeError + A)) : NativeError + list A :=
  match parts with
  | [] => inr []
  | inl e :: _ => inl e
  | inr a :: rest =>
      match collect rest with
      | inr l => inr (a :: l)
      | inl e => inl e
      end
  end.

(** The text of a property: none for a value with no text. *)
Definition member (k : string) (text : option string) : option string :=
  match text with
  | Some t => Some (quote k +:+ ":" +:+ t)
  | None => None
  end.

Fixpoint stringify (v : JsValue) : NativeError + option string :=
  match v with
  | VUndefined => inr None
  | VNull => inr (Some "null")
  | VBool true => inr (Some "true")
  | VBool false => inr (Some "false")
  | VNum n => inr (Some (print_number n))
  | VBigInt _ => inl TypeError_BigInt
  | VStr s => inr (Some (quote s))
  | VArr items =>
      match collect (map stringify items) with
      | inr texts =>
          inr (Some ("[" +:+ join "," (map (default "null") texts) +:+ "]"))
      | inl e => inl e
      end
  | VObj props =>
      match collect (map (fun kv => stringify (snd kv)) props) with
      | inr texts =>
          inr (Some ("{" +:+ join "," (omap id (zip_with member (map fst props)
                                                         texts))
                         +:+ "}"))
      | inl e => inl e
      end
  end.

(** *** Parsing *)

Definition is_ws (c : ascii) : bool :=
  let n := nat_of_ascii c in
  (n =? 32)%nat || (n =? 9)%nat || (n =? 10)%nat || (n =? 13)%nat.

Fixpoint skip_ws (s : string) : string :=
  match s with
  | EmptyString => ""
  | String c s' => if is_ws c then skip_ws s' else s
  end.

Fixpoint strip_prefix (lit s : string) : option string :=
  match lit with
  | EmptyString => Some s
  | String c lit' =>
      match s with
      | EmptyString => None
      | String c' s' => if Ascii.eqb c c' then strip_prefix lit' s' else None
      end
  end.

Definition hex_value (c : ascii) : option nat :=
  let n := nat_of_ascii c in
  if (48 <=? n)%nat && (n <=? 57)%nat then Some (n - 48)%nat
  else if (97 <=? n)%nat && (n <=? 102)%nat then Some (n - 87)%nat
  else if (65 <=? n)%nat && (n <=? 70)%nat then Some (n - 55)%nat
  else None.

(** The character of a one-letter escape. *)
Definition unescape (c : ascii) : option ascii :=
  if Ascii.eqb c dquote then Some dquote
  else if Ascii.eqb c backslash then Some backslash
  else if Ascii.eqb c "/" then Some "/"%char
  else if Ascii.eqb c "b" then Some (ascii_of_nat 8)
  else if Ascii.eqb c "t" then Some (ascii_of_nat 9)
  else if Ascii.eqb c "n" then Some (ascii_of_nat 10)
  else if Ascii.eqb c "f" then Some (ascii_of_nat 12)
  else if Ascii.eqb c "r" then Some (ascii_of_nat 13)
  else None.

Definition unescape_hex (h1 h2 h3 h4 : ascii) : option ascii :=
  match hex_value h1, hex_value h2, hex_value h3, hex_value h4 with
  | Some a, Some b, Some c, Some d =>
      if ((a =? 0) && (b =? 0))%nat then Some (ascii_of_nat (16 * c + d))
      else None
  | _, _, _, _ => None
  end.

(** The characters of a string after its opening quote, and the text after
    the closing one. *)
Fixpoint parse_chars (s : string) : option (string * string) :=
  match s with
  | EmptyString => None
  | String c s1 =>
      if Ascii.eqb c dquote then Some ("", s1)
      else if Ascii.eqb c backslash then
        match s1 with
        | EmptyString => None
        | String e s2 =>
            if Ascii.eqb e "u" then
              match s2 with
              | String h1 (String h2 (String h3 (String h4 s3))) =>
                  match unescape_hex h1 h2 h3 h4, parse_chars s3 with
                  | Some c', Some (chars, rest) => Some (String c' chars, rest)
                  | _, _ => None
                  end
              | _ => None
              end
            else
              match unescape e, parse_chars s2 with
              | Some c', Some (chars, rest) => Some (String c' chars, rest)
              | _, _ => None
              end
        end
      else if (nat_of_ascii c <? 32)%nat then None
      else
        match parse_chars s1 with
        | Some (chars, rest) => Some (String c chars, rest)
        | None => None
        end
  end.

Definition is_number_char (c : ascii) : bool :=
  let n := nat_of_ascii c in
  Ascii.eqb c "-" || ((48 <=? n)%nat && (n <=? 57)%nat).

(** The longest prefix of sign and digits, and the text after it. *)
Fixpoint span_number (s : string) : string * string :=
  match s with
  | EmptyString => ("", "")
  | String c s' =>
      if is_number_char c then
        let (token, rest) := span_number s' in (String c token, rest)
      else ("", s)
  end.

(** A number token is accepted in the one notation [print_number] writes:
    no leading zero, no negative zero. *)
Definition parse_number (s : string) : option (JsValue * string) :=
  let (token, rest) := span_number s in
  match DecimalString.NilZero.int_of_string token with
  | Some d =>
      let n := Z.of_int d in
      if String.eqb (print_number n) token then Some (VNum n, rest) else None
  | None => None
  end.

(** Defining a property: a name already present keeps its place and takes
    the new value. *)
Fixpoint define_property (props : list (string * JsValue)) (kv : string * JsValue)
  : list (string * JsValue) :=
  match props with
  | [] => [kv]
  | (k, v) :: rest =>
      if String.eqb k (fst kv) then (k, snd kv) :: rest
      else (k, v) :: define_property rest kv
  end.

(** The next character that is not white space, and the text after it. *)
Definition next_token (s : string) : option (ascii * string) :=
  match skip_ws s with
  | EmptyString => None
  | String c rest => Some (c, rest)
  end.

Fixpoint parse_value (fuel : nat) (s : string) : option (JsValue * string) :=
  match fuel with
  | O => None
  | Datatypes.S fuel' =>
      match next_token s with
      | None => None
      | Some (c, rest) =>
          if Ascii.eqb c "n" then
            match strip_prefix "ull" rest with
            | Some r => Some (VNull, r)
            | None => None
            end
          else if Ascii.eqb c "t" then
            match strip_prefix "rue" rest with
            | Some r => Some (VBool true, r)
            | None => None
            end
          else if Ascii.eqb c "f" then
            match strip_prefix "alse" rest with
            | Some r => Some (VBool false, r)
            | None => None
            end
          else if Ascii.eqb c dquote then
            match parse_chars rest with
            | Some (chars, r) => Some (VStr chars, r)
            | None => None
            end
          else if Ascii.eqb c "[" then
            match next_token rest with
            | None => None
            | Some (c', r) =>
                if Ascii.eqb c' "]" then Some (VArr [], r)
                else
                  match parse_elements fuel' rest with
                  | Some (items, r') => Some (VArr items, r')
                  | None => None
                  end
            end
          else if Ascii.eqb c "{" then
            match next_token rest with
            | None => None
            | Some (c', r) =>
                if Ascii.eqb c' "}" then Some (VObj [], r)
                else
                  match parse_members fuel' rest with
                  | Some (members, r') =>
                      Some (VObj (fold_left define_property members []), r')
                  | None => None
                  end
            end
          else parse_number (String c rest)
      end
  end
with parse_elements (fuel : nat) (s : string)
  : option (list JsValue * string) :=
  match fuel with
  | O => None
  | Datatypes.S fuel' =>
      match parse_value fuel' s with
      | None => None
      | Some (v, r) =>
          match next_token r with
          | None => None
          | Some (c, r') =>
              if Ascii.eqb c "," then
                match parse_elements fuel' r' with
                | Some (items, r'') => Some (v :: items, r'')
                | None => None
                end
              else if Ascii.eqb c "]" then Some ([v], r')
              else None
          end
      end
  end
with parse_members (fuel : nat) (s : string)
  : option (list (string * JsValue) * string) :=
  match fuel with
  | O => None
  | Datatypes.S fuel' =>
      match next_token s with
      | None => None
      | Some (c, r0) =>
          if Ascii.eqb c dquote then
            match parse_chars r0 with
            | None => None
            | Some (k, r1) =>
                match next_token r1 with
                | None => None
                | Some (c1, r2) =>
                    if Ascii.eqb c1 ":" then
                      match parse_value fuel' r2 with
                      | None => None
                      | Some (v, r3) =>
                          match next_token r3 with
                          | None => None
                          | Some (c3, r4) =>
                              if Ascii.eqb c3 "," then
                                match parse_members fuel' r4 with
                                | Some (members, r5) =>
                                    Some ((k, v) :: members, r5)
                                | None => None
                                end
                              else if Ascii.eqb c3 "}" then Some ([(k, v)], r4)
                              else None
                          end
                      end
                    else None
                end
            end
          else None
      end
  end.

(** The values the codec writes and reads back unchanged: no [undefined]
    and no BigInt inside, no property name twice in an object. *)
Fixpoint plain (v : JsValue) : bool :=
  match v with
  | VUndefined | VBigInt _ => false
  | VNull | VBool _ | VNum _ | VStr _ => true
  | VArr items => forallb plain items
  | VObj props =>
      forallb (fun kv => plain (snd kv)) props
      && bool_decide (NoDup (map fst props))
  end.

(** Fuel that [parse_value] uses at most on the text of a value. *)
Fixpoint cost (v : JsValue) : nat :=
  match v with
  | VArr items => Datatypes.S (list_sum (map (fun x => Datatypes.S (cost x)) items))
  | VObj props =>
      Datatypes.S (list_sum (map (fun kv => Datatypes.S (cost (snd kv))) props))
  | _ => 1%nat
  end.

(** A text that can follow a number: it does not go on with a digit or a
    sign. *)
Definition delimited (rest : string) : bool :=
  match rest with
  | EmptyString => true
  | String c _ => negb (is_number_char c)
  end.

(** The characters a JSON text can start with. *)
Definition starts_value (c : ascii) : bool :=
  is_number_char c
  || Ascii.eqb c "n" || Ascii.eqb c "t" || Ascii.eqb c "f"
  || Ascii.eqb c dquote || Ascii.eqb c "[" || Ascii.eqb c "{".

(** The text of an element of an array and of a property of an object. *)
Definition element_text (x : JsValue) : string :=
  match stringify x with
  | inr (Some text) => text
  | _ => "null"
  end.

Definition member_string (kv : string * JsValue) : string :=
  quote (fst kv) +:+ ":" +:+ element_text (snd kv).

(** [round_trips v]: the text of [v], followed by anything that does not go
    on as a number, parses to [v] and leaves what follows. *)
Definition round_trips (v : JsValue) : Prop :=
  plain v = true ->
  forall text, stringify v = inr (Some text) ->
  forall fuel rest,
    (cost v <= fuel)%nat -> delimited rest = true ->
    parse_value fuel (text +:+ rest) = Some (v, rest).

(** [fits v]: the text of [v] is long enough for the fuel of [parse]. *)
Definition fits (v : JsValue) : Prop :=
  plain v = true ->
  forall text,
    stringify v = inr (Some text) -> (cost v <= String.length text)%nat.

Definition parse (s : string) : NativeError + JsValue :=
  match parse_value (2 * String.length s) s with
  | Some (v, rest) =>
      match skip_ws rest with
      | EmptyString => inr v
      | _ => inl SyntaxError
      end
  | None => inl SyntaxError
  end.

#[export] Instance codec : Codec := {|
  JSON_stringify := stringify;
  JSON_parse := parse
|}.

End Json.

(** ** Vocabulary of the specification *)

(** The rejection of a settled promise, if it is one. *)
Definition rejection {A} (r : Settled A) : option Thrown :=
  match r with
  | Fulfilled _ => None
  | Rejected err => Some err
  end.

(** The two classes of the error taxonomy. *)
Definition NotFound (msg : string) : Thrown := new_HttpError msg 404.
Definition StoreFailure (msg : string) : Thrown := new_HttpError msg 500.

Section Vocabulary.
Context {S : Type} {codec : Codec} (this : ElastiCache.t S).

(** [{ [key]: value }] *)
Definition record (kv : string * JsValue) : JsValue := VObj [kv].

(** The primitive read [getAll] uses for a key of a store-level type, if it
    has one. *)
Definition read_typed (type key : string) : option (Async S JsValue) :=
  if String.eqb type "string" then
    Some (ElastiCache.get this key (Some true))
  else if String.eqb type "list" then
    Some (ElastiCache.listGet this key (Some 0) (Some (-1)) (Some true))
  else if String.eqb type "hash" then
    Some (ElastiCache.hashGetAll this key (Some true))
  else None.

Definition recognised (type : string) : bool :=
  String.eqb type "string" || String.eqb type "list" || String.eqb type "hash".

(** [Snapshot w keys types records w']: from [w], inspecting the type of
    each key of [keys] in turn yields [types], the primitive read of every
    key of a recognised type succeeds, [records] pairs those keys with what
    was read, and the world ends as [w']. *)
Inductive Snapshot : World S -> list string -> list string ->
                     list (string * JsValue) -> World S -> Prop :=
| Snapshot_done w : Snapshot w [] [] [] w
| Snapshot_read w key type w1 read v w2 keys types records w3 :
    call (CmdType key) (c_type (ElastiCache.client this) key) w
      = (Fulfilled type, w1) ->
    read_typed type key = Some read ->
    read w1 = (Fulfilled v, w2) ->
    Snapshot w2 keys types records w3 ->
    Snapshot w (key :: keys) (type :: types) ((key, v) :: records) w3
| Snapshot_skip w key type w1 keys types records w3 :
    call (CmdType key) (c_type (ElastiCache.client this) key) w
      = (Fulfilled type, w1) ->
    read_typed type key = None ->
    Snapshot w1 keys types records w3 ->
    Snapshot w (key :: keys) (type :: types) records w3.

(** The three composite operations. *)
Inductive Composite : Type :=
| GetByPrefix (prefix : string)
| GetAll
| DeleteAll (pattern : option string).

Definition composite_rejection (c : Composite) (w : World S) : option Thrown :=
  match c with
  | GetByPrefix prefix => rejection (fst (ElastiCache.getByPrefix this prefix w))
  | GetAll => rejection (fst (ElastiCache.getAll this w))
  | DeleteAll pattern => rejection (fst (ElastiCache.deleteAll this pattern w))
  end.

(** The members joined by [Promise.all] settle as [rs] and [err] is the
    first rejection among them. *)
Definition first_rejection {A} (rs : list (Settled A)) (err : Thrown) : Prop :=
  exists (vs : list A) (rest : list (Settled A)),
    rs = ((Fulfilled <$> vs) ++ Rejected err :: rest)%list.

(** [member_raises c w err]: run from [w], the key enumeration of the
    composite [c] succeeds with at least one key and [err] is the first
    error a primitive operation on a member key raises. *)
Inductive member_raises : Composite -> World S -> Thrown -> Prop :=
| raises_in_getByPrefix prefix w keys w1 rs w2 err :
    call (CmdKeys (prefix +:+ ":*"))
         (c_keys (ElastiCache.client this) (prefix +:+ ":*")) w
      = (Fulfilled keys, w1) ->
    keys <> [] ->
    settle_all ((fun key => ElastiCache.get this key (Some true)) <$> keys) w1
      = (rs, w2) ->
    first_rejection rs err ->
    member_raises (GetByPrefix prefix) w err
| raises_in_getAll w keys w1 done types records w2 key type w3 read w4 rest err :
    call (CmdKeys "*") (c_keys (ElastiCache.client this) "*") w
      = (Fulfilled keys, w1) ->
    keys = (done ++ key :: rest)%list ->
    Snapshot w1 done types records w2 ->
    call (CmdType key) (c_type (ElastiCache.client this) key) w2
      = (Fulfilled type, w3) ->
    read_typed type key = Some read ->
    read w3 = (Rejected err, w4) ->
    member_raises GetAll w err
| raises_in_deleteAll pattern w keys w1 rs w2 err :
    call (CmdKeys (default "*" pattern))
         (c_keys (ElastiCache.client this) (default "*" pattern)) w
      = (Fulfilled keys, w1) ->
    keys <> [] ->
    settle_all (ElastiCache.delete this <$> keys) w1 = (rs, w2) ->
    first_rejection rs err ->
    member_raises (DeleteAll pattern) w err.

End Vocabulary.

(** The reading of [refreshKey] under which a missing key is a silent no-op:
    whenever [expire] answers zero, the call resolves. *)
Definition refreshKey_swallows_NotFound : Prop :=
  forall (S : Type) (codec : Codec) (this : ElastiCache.t S)
         (key : string) (ttl : Z) (w w1 : World S),
    call (CmdExpire key ttl) (c_expire (ElastiCache.client this) key ttl) w
      = (Fulfilled 0, w1) ->
    exists w2, ElastiCache.refreshKey this key ttl w = (Fulfilled tt, w2).

(** A client answers a read of a key with the text last written to it. *)
Definition read_your_write {S : Type} (cl : RedisClient S) : Prop :=
  forall key text ex s s1 r s2,
    c_set cl key (Some text) ex s = (inr tt, s1) ->
    c_get cl key s1 = (inr (Some r), s2) ->
    r = text.

(** The store after the client deleted each key of [keys] in turn. *)
Definition purged {S : Type} (cl : RedisClient S) (keys : list string) (s : S)
  : S :=
  foldl (fun s0 key => snd (c_del cl key s0)) s keys.

(** The reading of the round-trip invariant under which every value that
    [JSON.stringify] has a text for is read back as it was written, on a
    client that answers a read with the text last written. *)
Definition written_value_is_read_back {codec : Codec} : Prop :=
  forall (S : Type) (this : ElastiCache.t S) (key : string) (v r : JsValue)
         (text : string) (ttl : option Z) (w w1 w2 : World S),
    read_your_write (ElastiCache.client this) ->
    JSON_stringify v = inr (Some text) ->
    ElastiCache.set this key v ttl w = (Fulfilled tt, w1) ->
    ElastiCache.get this key (Some true) w1 = (Fulfilled r, w2) ->
    r = v.

(** ** Fixtures: facades on the in-memory Redis *)

Module Fixtures.

#[local] Existing Instance Json.codec.

Definition cache : ElastiCache.t MemRedis.Store :=
  ElastiCache.new MemRedis.client false.

(** A facade whose key listing is out of date: it lists [kept], which the
    server holds, and [ghost], which it does not hold any more. *)
Definition late_cache : ElastiCache.t MemRedis.Store :=
  ElastiCache.new (MemRedis.stale ["kept"; "ghost"] MemRedis.client) false.

(** A fresh server, and a client that was never connected. *)
Definition fresh : World MemRedis.Store := MemRedis.boot MemRedis.empty.
Definition offline : World MemRedis.Store :=
  MemRedis.boot (MemRedis.mkStore false ∅ ∅).

(** The world after [m] ran on a fresh server, with a clean record of
    commands and console. *)
Definition after {A} (m : Async MemRedis.Store A) : World MemRedis.Store :=
  MemRedis.boot (store (snd (m fresh))).

Definition john : JsValue := VObj [("name", VStr "John")].
Definition john_text : string :=
  "{" +:+ Json.quote "name" +:+ ":" +:+ Json.quote "John" +:+ "}".
Definition alice : JsValue := VObj [("name", VStr "Alice")].
Definition bob : JsValue := VObj [("name", VStr "Bob")].

(** The server of the prefix test: two users and a key outside the prefix. *)
Definition users : World MemRedis.Store :=
  after (ElastiCache.set cache "users:1" alice None ;;
         ElastiCache.set cache "users:2" bob None ;;
         ElastiCache.set cache "session" (VStr "s3cr3t") (Some 60)).

(** A server that holds [kept] and not [ghost]. *)
Definition kept_only : World MemRedis.Store :=
  after (ElastiCache.set cache "kept" (VNum 7) None).

End Fixtures.

(** ** The public surface *)

(** A call of one of the public methods, with its arguments. *)
Inductive Operation : Type :=
| OpConnect
| OpDisconnect
| OpSet (key : string) (value : JsValue) (ttl : option Z)
| OpGet (key : string) (parse : option bool)
| OpDelete (key : string)
| OpListPush (key : string) (value : JsValue)
| OpListPop (key : string) (parse : option bool)
| OpListRemove (key : string) (value : JsValue)
| OpListGet (key : string) (start stop : option Z) (parse : option bool)
| OpGetByPrefix (prefix : string)
| OpHashSet (key field : string) (value : JsValue)
| OpHashGet (key field : string) (parse : option bool)
| OpHashGetAll (key : string) (parse : option bool)
| OpHashDelete (key field : string)
| OpRefreshKey (key : string) (ttl : Z)
| OpGetAll
| OpGetTimeToLive (key : string)
| OpDeleteAll (pattern : option string).

Section Surface.
Context {S : Type} {codec : Codec} (this : ElastiCache.t S).

(** An [async] method that ends without [return] resolves with
    [undefined]. *)
Definition void (m : Async S unit) : Async S JsValue :=
  let* _ := m in ret VUndefined.

(** [await this.method(...)] *)
Definition invoke (op : Operation) : Async S JsValue :=
  match op with
  | OpConnect => void (ElastiCache.connect this)
  | OpDisconnect => void (ElastiCache.disconnect this)
  | OpSet key value ttl => void (ElastiCache.set this key value ttl)
  | OpGet key parse => ElastiCache.get this key parse
  | OpDelete key => void (ElastiCache.delete this key)
  | OpListPush key value => void (ElastiCache.listPush this key value)
  | OpListPop key parse => ElastiCache.listPop this key parse
  | OpListRemove key value => void (ElastiCache.listRemove this key value)
  | OpListGet key start stop parse =>
      ElastiCache.listGet this key start stop parse
  | OpGetByPrefix prefix => ElastiCache.getByPrefix this prefix
  | OpHashSet key field value => void (ElastiCache.hashSet this key field value)
  | OpHashGet key field parse => ElastiCache.hashGet this key field parse
  | OpHashGetAll key parse => ElastiCache.hashGetAll this key parse
  | OpHashDelete key field => void (ElastiCache.hashDelete this key field)
  | OpRefreshKey key ttl => void (ElastiCache.refreshKey this key ttl)
  | OpGetAll => ElastiCache.getAll this
  | OpGetTimeToLive key => ElastiCache.getTimeToLive this key
  | OpDeleteAll pattern => void (ElastiCache.deleteAll this pattern)
  end.

(** The command that carries the text of [value]: none when
    [JSON.stringify] throws, as the argument is evaluated before the client
    is entered. *)
Definition with_text (value : JsValue) (cmd : option string -> Command)
  : list Command :=
  match JSON_stringify value with
  | inr text => [cmd text]
  | inl _ => []
  end.

(** The commands of a primitive operation: its one command, or none for a
    write whose value has no text because [JSON.stringify] throws; a
    composite operation sends a number of commands that depends on the
    store. *)
Definition commands_of (op : Operation) : option (list Command) :=
  match op with
  | OpConnect => Some [CmdConnect]
  | OpDisconnect => Some [CmdDisconnect]
  | OpSet key value ttl =>
      Some (with_text value
              (fun text => CmdSet key text (ElastiCache.set_options ttl)))
  | OpGet key _ => Some [CmdGet key]
  | OpDelete key => Some [CmdDel key]
  | OpListPush key value => Some (with_text value (CmdRPush key))
  | OpListPop key _ => Some [CmdRPop key]
  | OpListRemove key value => Some (with_text value (CmdLRem key 0))
  | OpListGet key start stop _ =>
      Some [CmdLRange key (default 0 start) (default (-1) stop)]
  | OpHashSet key field value => Some (with_text value (CmdHSet key field))
  | OpHashGet key field _ => Some [CmdHGet key field]
  | OpHashGetAll key _ => Some [CmdHGetAll key]
  | OpHashDelete key field => Some [CmdHDel key field]
  | OpRefreshKey key ttl => Some [CmdExpire key ttl]
  | OpGetTimeToLive key => Some [CmdTtl key]
  | OpGetByPrefix _ | OpGetAll | OpDeleteAll _ => None
  end.

End Surface.

(** The operations that read a whole hash: [hashGetAll], and [getAll]
    through it. *)
Definition reads_whole_hash (op : Operation) : bool :=
  match op with
  | OpHashGetAll _ _ | OpGetAll => true
  | _ => false
  end.

(** An error of the taxonomy: an [HttpError] of status 404 or 500. *)
Definition classified (err : Thrown) : Prop :=
  exists e : HttpError,
    err = HttpErr e /\ (statusCode e = 404 \/ statusCode e = 500).

(** Two worlds that differ in the console at most. *)
Definition same_store {S : Type} (w w' : World S) : Prop :=
  store w = store w' /\ issued w = issued w'.

(** Laws of a client, one per kind of value: a field reads as the text last
    set, the tail of a list pops as the text last pushed, a deleted key reads
    as [null]. *)
Definition field_reads_as_set {S : Type} (cl : RedisClient S) : Prop :=
  forall key field text s n s1 r s2,
    c_hSet cl key field (Some text) s = (inr n, s1) ->
    c_hGet cl key field s1 = (inr (Some r), s2) ->
    r = text.

Definition tail_pops_as_pushed {S : Type} (cl : RedisClient S) : Prop :=
  forall key text s n s1 r s2,
    c_rPush cl key (Some text) s = (inr n, s1) ->
    c_rPop cl key s1 = (inr (Some r), s2) ->
    r = text.

Definition deleted_reads_null {S : Type} (cl : RedisClient S) : Prop :=
  forall key s n s1 r s2,
    c_del cl key s = (inr n, s1) ->
    c_get cl key s1 = (inr r, s2) ->
    r = None.

(** ** The hooks of the test suite

    [beforeAll] and [afterAll] of [redis.test.js]: the suite builds a facade
    with logging off, connects it, and at the end purges the store and
    disconnects. *)

Module Suite.
Section Hooks.
Context {S : Type} (redis_createClient : RedisClient S).

(** [try { body } finally { finalizer }]: the finalizer runs whatever the
    body did; what it throws replaces the outcome of the body. *)
Definition try_finally {A} (body : Async S A) (finalizer : Async S unit)
  : Async S A :=
  fun w =>
    let (r, w1) := body w in
    match finalizer w1 with
    | (Fulfilled _, w2) => (r, w2)
    | (Rejected err, w2) => (Rejected err, w2)
    end.

(** [new ElastiCache({ host, port })]: [dev] takes its default. *)
Definition cache : ElastiCache.t S := ElastiCache.new redis_createClient false.

Definition beforeAll : Async S unit := ElastiCache.connect cache.

Definition afterAll : Async S unit :=
  try_finally
    (try_catch
       (ElastiCache.deleteAll cache None)
       (fun error => console_error "Error cleaning up:" error))
    (ElastiCache.disconnect cache).

End Hooks.
End Suite.

(** ** Footprints of a computation *)

(** [sends cmds m]: whatever its outcome, [m] sends the commands [cmds], in
    that order, and no other. *)
Definition sends {S A : Type} (cmds : list Command) (m : Async S A) : Prop :=
  forall w, issued (snd (m w)) = (issued w ++ cmds)%list.

(** [silent m]: [m] writes nothing to the console. *)
Definition silent {S A : Type} (m : Async S A) : Prop :=
  forall w, console (snd (m w)) = console w.

(** [agree m m']: from worlds that differ in the console at most, [m] and
    [m'] have the same outcome and leave such worlds. *)
Definition agree {S A : Type} (m m' : Async S A) : Prop :=
  forall w w',
    same_store w w' ->
    fst (m w) = fst (m' w') /\ same_store (snd (m w)) (snd (m' w')).

(** [classifies m]: every rejection of [m] is an error of the taxonomy.
    [tame m]: every [HttpError] it rejects with is one. *)
Definition classifies {S A : Type} (m : Async S A) : Prop :=
  forall w err, rejection (fst (m w)) = Some err -> classified err.

Definition tame {S A : Type} (m : Async S A) : Prop :=
  forall w err,
    rejection (fst (m w)) = Some err ->
    instanceof_HttpError err = true -> classified err.

(** The pattern a composite operation enumerates and the message of its own
    [StoreFailure]. *)
Definition enumeration_of (op : Operation) : option (string * string) :=
  match op with
  | OpGetByPrefix prefix =>
      Some (prefix +:+ ":*", "Error fetching keys by prefix")
  | OpGetAll => Some ("*", "Error fetching all keys from Redis")
  | OpDeleteAll pattern =>
      Some (default "*" pattern, "Error deleting all keys from Redis")
  | _ => None
  end.
(** The values of the fields decode to [parsed], field by field. *)
Definition decodes_to {codec : Codec} (props : list (string * string))
  (parsed : list (string * JsValue)) : Prop :=
  Forall2 (fun kv kv' => fst kv = fst kv' /\ JSON_parse (snd kv) = inr (snd kv'))
          props parsed.

(** ** More test doubles *)

Module Doubles.

(** A connection that closes after a number of commands: the client answers
    as [cl] does while the budget lasts, and rejects from then on. *)
Definition metered {S A : Type} (reply : Reply S A) : Reply (nat * S) A :=
  fun ns =>
    match fst ns with
    | O => (inl MemRedis.ClientClosedError, ns)
    | Datatypes.S budget =>
        let (r, s') := reply (snd ns) in (r, (budget, s'))
    end.

Definition fading {S : Type} (cl : RedisClient S) : RedisClient (nat * S) := {|
  c_connect := metered (c_connect cl);
  c_disconnect := metered (c_disconnect cl);
  c_set := fun key text ex => metered (c_set cl key text ex);
  c_get := fun key => metered (c_get cl key);
  c_del := fun key => metered (c_del cl key);
  c_rPush := fun key text => metered (c_rPush cl key text);
  c_rPop := fun key => metered (c_rPop cl key);
  c_lRem := fun key count text => metered (c_lRem cl key count text);
  c_lRange := fun key start stop => metered (c_lRange cl key start stop);
  c_keys := fun pattern => metered (c_keys cl pattern);
  c_hSet := fun key field text => metered (c_hSet cl key field text);
  c_hGet := fun key field => metered (c_hGet cl key field);
  c_hGetAll := fun key => metered (c_hGetAll cl key);
  c_hDel := fun key field => metered (c_hDel cl key field);
  c_expire := fun key seconds => metered (c_expire cl key seconds);
  c_type := fun key => metered (c_type cl key);
  c_ttl := fun key => metered (c_ttl cl key)
|}.

(** A client that answers [null], not an empty object, for a key that holds
    no hash. *)
Definition nullish {S : Type} (cl : RedisClient S) : RedisClient S := {|
  c_connect := c_connect cl;
  c_disconnect := c_disconnect cl;
  c_set := c_set cl;
  c_get := c_get cl;
  c_del := c_del cl;
  c_rPush := c_rPush cl;
  c_rPop := c_rPop cl;
  c_lRem := c_lRem cl;
  c_lRange := c_lRange cl;
  c_keys := c_keys cl;
  c_hSet := c_hSet cl;
  c_hGet := c_hGet cl;
  c_hGetAll := fun key s =>
    match c_hGetAll cl key s with
    | (inr (Some []), s') => (inr None, s')
    | answer => answer
    end;
  c_hDel := c_hDel cl;
  c_expire := c_expire cl;
  c_type := c_type cl;
  c_ttl := c_ttl cl
|}.

End Doubles.

(** ** More fixtures *)

Module Scenes.

#[local] Existing Instance Json.codec.

(** A server that holds the hash [profile], and the fields it answers. *)
Definition with_profile : World MemRedis.Store :=
  Fixtures.after
    (ElastiCache.hashSet Fixtures.cache "profile" "name" (VStr "Ann") ;;
     ElastiCache.hashSet Fixtures.cache "profile" "age" (VNum 30)).

Definition profile_fields : list (string * string) :=
  [("name", Json.quote "Ann"); ("age", "30")].

(** A facade with logging on, over a client that answers [null] for a key
    that holds no hash. *)
Definition nullish_dev_cache : ElastiCache.t MemRedis.Store :=
  ElastiCache.new (Doubles.nullish MemRedis.client) true.

(** A facade over a connection that closes after three commands, on a
    server that holds the keys [a] and [b]. *)
Definition fading_cache : ElastiCache.t (nat * MemRedis.Store) :=
  ElastiCache.new (Doubles.fading MemRedis.client) false.

Definition two_keys : World MemRedis.Store :=
  Fixtures.after
    (ElastiCache.set Fixtures.cache "a" (VNum 1) None ;;
     ElastiCache.set Fixtures.cache "b" (VNum 2) None).

Definition three_commands_left : World (nat * MemRedis.Store) :=
  mkWorld (3%nat, store two_keys) [] [].

End Scenes.

(** * Properties *)

(** ** Running the monad *)

Ltac unfold_async :=
  unfold try_catch, bind, when, ret, throw, console_log, console_error in *.

(** Steps through a method body once its client call is known. *)
Ltac step_with H :=
  unfold_async; rewrite H; cbn [fst snd rejection default];
  repeat match goal with
         | |- context [if ElastiCache.dev ?t then _ else _] =>
             destruct (ElastiCache.dev t)
         end;
  cbn.

(** Case analysis on everything a method body branches on. *)
Ltac crunch :=
  repeat match goal with
         | |- context [if ElastiCache.dev ?t then _ else _] =>
             destruct (ElastiCache.dev t)
         | |- context [instanceof_HttpError ?e] =>
             destruct (instanceof_HttpError e) eqn:?
         | |- context [match JSON_parse ?t with _ => _ end] =>
             destruct (JSON_parse t)
         | |- context [if default false ?p then _ else _] =>
             destruct (default false p)
         | |- context [if ?z =? 0 then _ else _] => destruct (z =? 0)
         | _ => progress cbn
         end.

(** ** The codec

    The round-trip law of [Json]: the text of a plain value parses to that
    value. *)

Module JsonFacts.
Import Json.

#[local] Arguments String.append !s1 s2 : simpl nomatch.

Lemma append_assoc (s1 s2 s3 : string) :
  (s1 +:+ s2) +:+ s3 = s1 +:+ (s2 +:+ s3).
Proof. induction s1 as [| c s1 IH]; cbn; [reflexivity | now rewrite IH]. Qed.

Lemma length_append (s1 s2 : string) :
  String.length (s1 +:+ s2) = (String.length s1 + String.length s2)%nat.
Proof. induction s1 as [| c s1 IH]; cbn; [reflexivity | now rewrite IH]. Qed.

(** *** Numbers *)

Lemma span_number_uint (d : Decimal.uint) (rest : string) :
  delimited rest = true ->
  span_number (NilEmpty.string_of_uint d +:+ rest)
    = (NilEmpty.string_of_uint d, rest).
Proof.
  intros Hrest. induction d as [| d IH | d IH | d IH | d IH | d IH | d IH
                                | d IH | d IH | d IH | d IH];
    cbn; try (rewrite IH; reflexivity).
  destruct rest as [| c rest]; [reflexivity |]. cbn in *.
  destruct (is_number_char c); [discriminate | reflexivity].
Qed.

Lemma span_number_print (n : Z) (rest : string) :
  delimited rest = true ->
  span_number (print_number n +:+ rest) = (print_number n, rest).
Proof.
  intros Hrest. unfold print_number.
  assert (forall d, span_number (NilZero.string_of_uint d +:+ rest)
                    = (NilZero.string_of_uint d, rest)) as Huint.
  { intros d. unfold NilZero.string_of_uint.
    destruct d; try apply (span_number_uint _ rest Hrest).
    cbn. destruct rest as [| c rest]; [reflexivity |]. cbn in *.
    destruct (is_number_char c); [discriminate | reflexivity]. }
  destruct (Z.to_int n) as [d | d]; cbn; [apply Huint |].
  now rewrite Huint.
Qed.

Lemma int_of_print_number (n : Z) :
  NilZero.int_of_string (print_number n) = Some (Z.to_int n).
Proof.
  unfold print_number. apply NilZero.isi; destruct n; cbn; try discriminate;
    intros [= H]; now apply DecimalPos.Unsigned.to_uint_nonnil in H.
Qed.

Lemma parse_number_print (n : Z) (rest : string) :
  delimited rest = true ->
  parse_number (print_number n +:+ rest) = Some (VNum n, rest).
Proof.
  intros Hrest. unfold parse_number.
  rewrite (span_number_print n rest Hrest), int_of_print_number, DecimalZ.of_to.
  now rewrite String.eqb_refl.
Qed.

Lemma string_of_uint_head (d : Decimal.uint) :
  d <> Decimal.Nil ->
  exists c t, NilEmpty.string_of_uint d = String c t /\ is_number_char c = true.
Proof. destruct d; [congruence | ..]; intros _; cbn; eauto. Qed.

Lemma print_number_head (n : Z) :
  exists c t, print_number n = String c t /\ is_number_char c = true.
Proof.
  unfold print_number.
  destruct (Z.to_int n) as [d | d]; cbn; [| eauto].
  unfold NilZero.string_of_uint.
  destruct d; try (apply string_of_uint_head; discriminate). cbn. eauto.
Qed.

(** A character that starts a number starts nothing else. *)
Lemma number_char_dispatch (c : ascii) :
  is_number_char c = true ->
  is_ws c = false /\ Ascii.eqb c "n" = false /\ Ascii.eqb c "t" = false
  /\ Ascii.eqb c "f" = false /\ Ascii.eqb c dquote = false
  /\ Ascii.eqb c "[" = false /\ Ascii.eqb c "{" = false.
Proof.
  destruct c as [[] [] [] [] [] [] [] []]; cbn; intros H;
    try discriminate H; repeat split; reflexivity.
Qed.

(** *** Strings *)

Lemma parse_chars_escape_char (c : ascii) (tail : string) :
  parse_chars (escape_char c +:+ tail)
    = match parse_chars tail with
      | Some (chars, rest) => Some (String c chars, rest)
      | None => None
      end.
Proof.
  destruct c as [[] [] [] [] [] [] [] []]; reflexivity.
Qed.

Lemma parse_chars_escape (s rest : string) :
  parse_chars (escape s +:+ String dquote rest) = Some (s, rest).
Proof.
  induction s as [| c s IH]; [reflexivity |].
  cbn [escape]. rewrite append_assoc, parse_chars_escape_char, IH. reflexivity.
Qed.

(** *** Tokens *)

Lemma next_token_head (c : ascii) (t : string) :
  is_ws c = false -> next_token (String c t) = Some (c, t).
Proof. intros Hc. unfold next_token. cbn. now rewrite Hc. Qed.

Lemma starts_value_not_ws (c : ascii) :
  starts_value c = true ->
  is_ws c = false /\ Ascii.eqb c "]" = false /\ Ascii.eqb c "}" = false.
Proof.
  destruct c as [[] [] [] [] [] [] [] []]; cbn; intros H;
    try discriminate H; repeat split; reflexivity.
Qed.

Lemma JsValue_nested_ind (P : JsValue -> Prop) :
  P VUndefined -> P VNull -> (forall b, P (VBool b)) -> (forall n, P (VNum n)) ->
  (forall n, P (VBigInt n)) -> (forall s, P (VStr s)) ->
  (forall items, Forall P items -> P (VArr items)) ->
  (forall props, Forall (fun kv => P (snd kv)) props -> P (VObj props)) ->
  forall v, P v.
Proof.
  intros Hundef Hnull Hbool Hnum Hbig Hstr Harr Hobj.
  refine (fix IH (v : JsValue) : P v :=
            match v with
            | VUndefined => Hundef
            | VNull => Hnull
            | VBool b => Hbool b
            | VNum n => Hnum n
            | VBigInt n => Hbig n
            | VStr s => Hstr s
            | VArr items =>
                Harr items
                  ((fix go (l : list JsValue) : Forall P l :=
                      match l with
                      | [] => @List.Forall_nil _ _
                      | x :: l' => @List.Forall_cons _ _ x l' (IH x) (go l')
                      end) items)
            | VObj props =>
                Hobj props
                  ((fix go (l : list (string * JsValue))
                      : Forall (fun kv => P (snd kv)) l :=
                      match l with
                      | [] => @List.Forall_nil _ _
                      | kv :: l' =>
                          @List.Forall_cons _ _ kv l'
                            (match kv as p return P (snd p) with
                             | (_, x) => IH x
                             end) (go l')
                      end) props)
            end).
Qed.

Lemma stringify_array (items : list JsValue) :
  stringify (VArr items)
    = match collect (map stringify items) with
      | inr texts =>
          inr (Some ("[" +:+ join "," (map (default "null") texts) +:+ "]"))
      | inl e => inl e
      end.
Proof. reflexivity. Qed.

Lemma stringify_object (props : list (string * JsValue)) :
  stringify (VObj props)
    = match collect (map (fun kv => stringify (snd kv)) props) with
      | inr texts =>
          inr (Some ("{" +:+ join "," (omap id (zip_with member (map fst props)
                                                         texts))
                         +:+ "}"))
      | inl e => inl e
      end.
Proof. reflexivity. Qed.

(** The parts of a value that all have a text: their texts are collected. *)
Lemma collect_texts {A} (f : A -> JsValue) (l : list A) :
  Forall (fun a => exists text, stringify (f a) = inr (Some text)) l ->
  collect (map (fun a => stringify (f a)) l)
    = inr (map (fun a => Some (element_text (f a))) l).
Proof.
  induction 1 as [| a l (text & Htext) _ IH]; [reflexivity |].
  cbn [map collect]. unfold element_text at 1. rewrite Htext, IH. reflexivity.
Qed.

Lemma collect_element_texts (items : list JsValue) :
  Forall (fun x => exists text, stringify x = inr (Some text)) items ->
  collect (map stringify items)
    = inr (map (fun x => Some (element_text x)) items).
Proof. exact (collect_texts id items). Qed.

Lemma Forall_plain {A} (f : A -> JsValue) (P : JsValue -> Prop) (l : list A) :
  Forall (fun a => plain (f a) = true -> P (f a)) l ->
  forallb (fun a => plain (f a)) l = true ->
  Forall (fun a => P (f a)) l.
Proof.
  induction 1 as [| a l Ha _ IH]; [constructor |].
  cbn. intros [Hpa Hpl]%andb_true_iff. constructor; auto.
Qed.

Lemma plain_stringify (v : JsValue) :
  plain v = true -> exists text, stringify v = inr (Some text).
Proof.
  induction v as [| | b | n | n | s | items IH | props IH]
    using JsValue_nested_ind; cbn [plain]; intros Hplain;
    try discriminate; try (cbn; eauto; fail).
  - destruct b; cbn; eauto.
  - pose proof (Forall_plain id
                  (fun x => exists text, stringify x = inr (Some text))
                  items IH Hplain) as Htexts.
    rewrite stringify_array, (collect_element_texts items Htexts). eauto.
  - apply andb_true_iff in Hplain as [Hplain _].
    pose proof (Forall_plain snd
                  (fun x => exists text, stringify x = inr (Some text))
                  props IH Hplain) as Htexts.
    rewrite stringify_object, (collect_texts snd props Htexts). eauto.
Qed.

Lemma stringify_head (v : JsValue) (text : string) :
  stringify v = inr (Some text) ->
  exists c t, text = String c t /\ starts_value c = true.
Proof.
  destruct v as [| | [] | n | n | s | items | props];
    rewrite ?stringify_array, ?stringify_object;
    try (cbn; discriminate);
    try (cbn; intros [= <-]; eexists _, _; split; reflexivity).
  - cbn. intros [= <-]. destruct (print_number_head n) as (c & t & -> & Hc).
    exists c, t. split; [reflexivity |]. unfold starts_value. now rewrite Hc.
  - destruct (collect _) as [e | texts]; [discriminate |].
    intros [= <-]. eexists _, _; split; reflexivity.
  - destruct (collect _) as [e | texts]; [discriminate |].
    intros [= <-]. eexists _, _; split; reflexivity.
Qed.

(** *** Values *)

Lemma parse_elements_join (items : list JsValue) :
  items <> [] ->
  Forall round_trips items ->
  forallb plain items = true ->
  forall fuel rest,
    (list_sum (map (fun x => Datatypes.S (cost x)) items) <= fuel)%nat ->
    parse_elements fuel
      (join "," (map element_text items) +:+ String "]" rest)
      = Some (items, rest).
Proof.
  intros Hne Hall. induction Hall as [| x items Hx Hitems IH];
    [congruence |].
  clear Hne. intros Hplain fuel rest Hfuel.
  cbn in Hplain. apply andb_true_iff in Hplain as [Hpx Hpitems].
  destruct (plain_stringify x Hpx) as (text & Htext).
  destruct fuel as [| fuel]; [cbn in Hfuel; lia |].
  cbn [parse_elements]. cbn [map]. unfold element_text at 1.
  rewrite Htext. cbv iota.
  destruct items as [| y items].
  - cbn [join map].
    rewrite (Hx Hpx text Htext fuel (String "]" rest))
      by (cbn in *; lia || reflexivity).
    rewrite next_token_head by reflexivity. reflexivity.
  - change (join "," (text :: map element_text (y :: items)))
      with (text +:+ "," +:+ join "," (map element_text (y :: items))).
    rewrite !append_assoc.
    rewrite (Hx Hpx text Htext fuel)
      by (cbn in *; lia || reflexivity).
    cbn [String.append]. rewrite next_token_head by reflexivity.
    cbn [Ascii.eqb Bool.eqb].
    rewrite IH by (congruence || assumption || (cbn in *; lia)).
    reflexivity.
Qed.

Lemma omap_member_text (props : list (string * JsValue)) :
  omap id (zip_with member (map fst props)
             (map (fun kv => Some (element_text (snd kv))) props))
    = map member_string props.
Proof.
  induction props as [| kv props IH]; [reflexivity |]. cbn. now rewrite IH.
Qed.

Lemma parse_members_join (props : list (string * JsValue)) :
  props <> [] ->
  Forall (fun kv => round_trips (snd kv)) props ->
  forallb (fun kv => plain (snd kv)) props = true ->
  forall fuel rest,
    (list_sum (map (fun kv => Datatypes.S (cost (snd kv))) props) <= fuel)%nat ->
    parse_members fuel
      (join "," (map member_string props) +:+ String "}" rest)
      = Some (props, rest).
Proof.
  intros Hne Hall. induction Hall as [| [k x] props Hx Hprops IH];
    [congruence |].
  clear Hne. intros Hplain fuel rest Hfuel.
  cbn in Hplain. apply andb_true_iff in Hplain as [Hpx Hpprops].
  cbn [snd] in Hx.
  destruct (plain_stringify x Hpx) as (text & Htext).
  destruct fuel as [| fuel]; [cbn in Hfuel; lia |].
  cbn [parse_members map]. unfold member_string at 1, element_text at 1.
  cbn [fst snd]. rewrite Htext. cbv iota.
  unfold quote.
  destruct props as [| kv props].
  - cbn [join map]. cbn [String.append]. rewrite !append_assoc.
    cbn [String.append].
    rewrite next_token_head by reflexivity. cbn [Ascii.eqb Bool.eqb dquote].
    rewrite parse_chars_escape, next_token_head by reflexivity.
    cbn [Ascii.eqb Bool.eqb].
    rewrite (Hx Hpx text Htext fuel (String "}" rest))
      by (cbn in *; lia || reflexivity).
    rewrite next_token_head by reflexivity. reflexivity.
  - change (join "," (?m :: map member_string (kv :: props)))
      with (m +:+ "," +:+ join "," (map member_string (kv :: props))).
    cbn [String.append]. rewrite !append_assoc. cbn [String.append].
    rewrite next_token_head by reflexivity. cbn [Ascii.eqb Bool.eqb dquote].
    rewrite parse_chars_escape, next_token_head by reflexivity.
    cbn [Ascii.eqb Bool.eqb].
    rewrite (Hx Hpx text Htext fuel)
      by (cbn in *; lia || reflexivity).
    rewrite next_token_head by reflexivity. cbn [Ascii.eqb Bool.eqb].
    rewrite IH by (congruence || assumption || (cbn in *; lia)).
    reflexivity.
Qed.

(** Properties with distinct names are defined one after the other. *)
Lemma define_property_fresh (acc : list (string * JsValue))
  (kv : string * JsValue) :
  fst kv ∉ map fst acc -> define_property acc kv = (acc ++ [kv])%list.
Proof.
  induction acc as [| [k v] acc IH]; intros Hfresh; [reflexivity |].
  cbn in *. apply not_elem_of_cons in Hfresh as [Hne Hfresh].
  destruct (String.eqb_spec k kv.1) as [-> | _]; [congruence |].
  now rewrite IH.
Qed.

Lemma fold_define_property (props acc : list (string * JsValue)) :
  NoDup (map fst (acc ++ props)) ->
  fold_left define_property props acc = (acc ++ props)%list.
Proof.
  revert acc. induction props as [| kv props IH]; intros acc Hnodup; cbn.
  - now rewrite app_nil_r.
  - rewrite define_property_fresh.
    + rewrite IH; rewrite <- app_assoc; [reflexivity | exact Hnodup].
    + rewrite map_app in Hnodup. apply NoDup_app in Hnodup as (_ & Hdisj & _).
      intros Hin. apply (Hdisj _ Hin). cbn. left.
Qed.

Lemma Forall_plain_stringify {A} (f : A -> JsValue) (l : list A) :
  forallb (fun a => plain (f a)) l = true ->
  Forall (fun a => exists text, stringify (f a) = inr (Some text)) l.
Proof.
  intros Hplain.
  apply (Forall_plain f (fun x => exists text, stringify x = inr (Some text)) l);
    [| exact Hplain].
  apply Forall_forall. intros a _. apply plain_stringify.
Qed.

Lemma stringify_VArr (items : list JsValue) :
  plain (VArr items) = true ->
  stringify (VArr items)
    = inr (Some ("[" +:+ join "," (map element_text items) +:+ "]")).
Proof.
  cbn [plain]. intros Hplain.
  rewrite stringify_array,
    (collect_element_texts items (Forall_plain_stringify id items Hplain)).
  rewrite map_map. reflexivity.
Qed.

Lemma stringify_VObj (props : list (string * JsValue)) :
  plain (VObj props) = true ->
  stringify (VObj props)
    = inr (Some ("{" +:+ join "," (map member_string props) +:+ "}")).
Proof.
  intros [Hplain _]%andb_true_iff.
  rewrite stringify_object,
    (collect_texts snd props (Forall_plain_stringify snd props Hplain)).
  rewrite omap_member_text. reflexivity.
Qed.

Theorem stringify_round_trips (v : JsValue) : round_trips v.
Proof.
  induction v as [| | b | n | n | s | items IH | props IH]
    using JsValue_nested_ind; intros Hplain text Htext fuel rest Hfuel Hrest;
    (destruct fuel as [| fuel]; [cbn in Hfuel; lia |]);
    [ discriminate | cbn in Htext | cbn in Htext | cbn in Htext | discriminate
    | cbn in Htext | rewrite (stringify_VArr items Hplain) in Htext
    | rewrite (stringify_VObj props Hplain) in Htext].
  - injection Htext as <-. reflexivity.
  - destruct b; injection Htext as <-; reflexivity.
  - injection Htext as <-.
    destruct (print_number_head n) as (c & t & Hhead & Hc).
    pose proof (parse_number_print n rest Hrest) as Hnum.
    rewrite Hhead in *. cbn [String.append] in *.
    destruct (number_char_dispatch c Hc) as (Hws & Hn & Ht & Hf & Hq & Ha & Ho).
    cbn [parse_value]. rewrite next_token_head by exact Hws.
    rewrite Hn, Ht, Hf, Hq, Ha, Ho. exact Hnum.
  - injection Htext as <-. unfold quote. cbn [String.append].
    rewrite append_assoc. cbn [String.append parse_value].
    rewrite next_token_head by reflexivity. cbn [Ascii.eqb Bool.eqb dquote].
    now rewrite parse_chars_escape.
  - injection Htext as <-. cbn [plain] in Hplain.
    cbn [String.append]. rewrite append_assoc. cbn [String.append parse_value].
    rewrite next_token_head by reflexivity. cbn [Ascii.eqb Bool.eqb dquote].
    destruct items as [| x items]; [reflexivity |].
    assert (exists c t, join "," (map element_text (x :: items)) +:+ String "]" rest
                        = String c t /\ starts_value c = true)
      as (c & t & Hhead & Hc).
    { apply andb_true_iff in Hplain as [Hpx _].
      destruct (plain_stringify x Hpx) as (tx & Htx).
      destruct (stringify_head x tx Htx) as (c & t & -> & Hc).
      cbn [map]. unfold element_text at 1. rewrite Htx. cbv iota.
      destruct items; cbn [join map String.append]; eauto. }
    destruct (starts_value_not_ws c Hc) as (Hws & Hclose & _).
    rewrite Hhead, next_token_head, Hclose, <- Hhead by exact Hws.
    rewrite parse_elements_join; [reflexivity | discriminate | assumption ..|].
    cbn [cost] in Hfuel. lia.
  - injection Htext as <-. cbn [plain] in Hplain.
    apply andb_true_iff in Hplain as [Hplain Hnodup].
    apply bool_decide_eq_true in Hnodup.
    cbn [String.append]. rewrite append_assoc. cbn [String.append parse_value].
    rewrite next_token_head by reflexivity. cbn [Ascii.eqb Bool.eqb dquote].
    destruct props as [| kv props]; [reflexivity |].
    assert (exists t, join "," (map member_string (kv :: props)) +:+ String "}" rest
                      = String dquote t) as (t & Hhead).
    { cbn [map]. unfold member_string at 1, quote.
      destruct props; cbn [join map String.append]; eauto. }
    rewrite Hhead, next_token_head by reflexivity.
    cbn [Ascii.eqb Bool.eqb dquote]. rewrite <- Hhead.
    rewrite parse_members_join; [| discriminate | assumption ..|].
    + rewrite fold_define_property by exact Hnodup. reflexivity.
    + cbn [cost] in Hfuel. lia.
Qed.

(** *** Fuel *)

Lemma append_nil_r (s : string) : s +:+ "" = s.
Proof. induction s as [| c s IH]; cbn; [reflexivity | now rewrite IH]. Qed.

Lemma join_length (texts : list string) :
  texts <> [] ->
  (String.length (join "," texts) + 1
   = list_sum (map (fun t => Datatypes.S (String.length t)) texts))%nat.
Proof.
  induction texts as [| t texts IH]; [congruence |]. intros _.
  destruct texts as [| t' texts]; [cbn; lia |].
  change (join "," (t :: t' :: texts)) with (t +:+ "," +:+ join "," (t' :: texts)).
  rewrite !length_append. cbn [map list_sum fold_right String.length] in *.
  specialize (IH ltac:(discriminate)). lia.
Qed.

Lemma cost_elements (items : list JsValue) :
  Forall fits items ->
  forallb plain items = true ->
  (list_sum (map (fun x => Datatypes.S (cost x)) items)
   <= list_sum (map (fun t => Datatypes.S (String.length t))
                    (map element_text items)))%nat.
Proof.
  induction 1 as [| x items Hx _ IH]; [reflexivity |].
  intros [Hpx Hpitems]%andb_true_iff. cbn [map]. unfold list_sum in *.
  cbn [fold_right].
  destruct (plain_stringify x Hpx) as (text & Htext).
  specialize (Hx Hpx text Htext). specialize (IH Hpitems).
  unfold element_text at 1. rewrite Htext.
  cbv iota. lia.
Qed.

Lemma cost_members (props : list (string * JsValue)) :
  Forall (fun kv => fits (snd kv)) props ->
  forallb (fun kv => plain (snd kv)) props = true ->
  (list_sum (map (fun kv => Datatypes.S (cost (snd kv))) props)
   <= list_sum (map (fun t => Datatypes.S (String.length t))
                    (map member_string props)))%nat.
Proof.
  induction 1 as [| [k x] props Hx _ IH]; [reflexivity |].
  intros [Hpx Hpprops]%andb_true_iff. cbn [map snd] in *.
  unfold list_sum in *. cbn [fold_right].
  destruct (plain_stringify x Hpx) as (text & Htext).
  specialize (Hx Hpx text Htext). specialize (IH Hpprops).
  unfold member_string at 1, element_text at 1. cbn [fst snd]. rewrite Htext.
  cbv iota.
  rewrite !length_append. lia.
Qed.

Lemma cost_le_length (v : JsValue) : fits v.
Proof.
  induction v as [| | b | n | n | s | items IH | props IH]
    using JsValue_nested_ind; intros Hplain text Htext.
  1-6: destruct (stringify_head _ _ Htext) as (c & t & -> & _); cbn; lia.
  - rewrite (stringify_VArr items Hplain) in Htext. injection Htext as <-.
    cbn [plain] in Hplain. pose proof (cost_elements items IH Hplain) as Hsum.
    cbn [cost String.length]. rewrite !length_append. cbn [String.length].
    destruct items as [| x items]; [cbn; lia |].
    rewrite <- join_length in Hsum by discriminate. lia.
  - rewrite (stringify_VObj props Hplain) in Htext. injection Htext as <-.
    cbn [plain] in Hplain. apply andb_true_iff in Hplain as [Hplain _].
    pose proof (cost_members props IH Hplain) as Hsum.
    cbn [cost String.length]. rewrite !length_append. cbn [String.length].
    destruct props as [| kv props]; [cbn; lia |].
    rewrite <- join_length in Hsum by discriminate. lia.
Qed.

(** Outside the plain values the law fails: [undefined] in an array is
    written as [null]. *)
Example undefined_element_reads_null :
  stringify (VArr [VUndefined]) = inr (Some "[null]")
  /\ parse "[null]" = inr (VArr [VNull]).
Proof. split; reflexivity. Qed.

(** The round-trip law of the codec: the text of a plain value parses, and
    it parses to that value. *)
Theorem parse_stringify (v : JsValue) (text : string) :
  plain v = true -> stringify v = inr (Some text) -> parse text = inr v.
Proof.
  intros Hplain Htext. unfold parse.
  pose proof (stringify_round_trips v Hplain text Htext
                (2 * String.length text)%nat "") as Hparse.
  rewrite append_nil_r in Hparse. rewrite Hparse; [reflexivity | | reflexivity].
  pose proof (cost_le_length v Hplain text Htext). lia.
Qed.

End JsonFacts.

(** ** The primitive operations *)

Section Primitives.
Context {S : Type} {codec : Codec} (this : ElastiCache.t S).

Lemma call_issued {A} (cmd : Command) (reply : Reply S A) (w : World S) :
  issued (snd (call cmd reply w)) = (issued w ++ [cmd])%list.
Proof.
  unfold call. destruct (reply (store w)) as [[e | a] s']; reflexivity.
Qed.

(** A call rejects with the client's error only. *)
Lemma call_rejects_native {A} (cmd : Command) (reply : Reply S A)
  (w w1 : World S) (err : Thrown) :
  call cmd reply w = (Rejected err, w1) -> instanceof_HttpError err = false.
Proof.
  unfold call. destruct (reply (store w)) as [[e | a] s']; intros [= <- _];
    reflexivity.
Qed.

(** *** [listGet] *)

(** An empty range: the [HttpError] of status 404 is thrown inside [try] and
    replaced by the [catch] clause. *)
Lemma listGet_empty_range (key : string) (start stop : option Z)
  (parse : option bool) (w w1 : World S) :
  call (CmdLRange key (default 0 start) (default (-1) stop))
       (c_lRange (ElastiCache.client this) key (default 0 start)
                 (default (-1) stop)) w
    = (Fulfilled [], w1) ->
  fst (ElastiCache.listGet this key start stop parse w)
    = Rejected (StoreFailure "Error fetching from Redis list").
Proof.
  intros Hcall. unfold ElastiCache.listGet. step_with Hcall; reflexivity.
Qed.

(** A non-empty range read without parsing is returned as it is. *)
Lemma listGet_raw (key : string) (start stop : option Z)
  (values : list string) (w w1 : World S) :
  call (CmdLRange key (default 0 start) (default (-1) stop))
       (c_lRange (ElastiCache.client this) key (default 0 start)
                 (default (-1) stop)) w
    = (Fulfilled values, w1) ->
  values <> [] ->
  ElastiCache.listGet this key start stop (Some false) w
    = (Fulfilled (VArr (VStr <$> values)), w1).
Proof.
  intros Hcall Hne. unfold ElastiCache.listGet.
  destruct values as [| v values]; [congruence |].
  step_with Hcall; reflexivity.
Qed.

(** Decoding every element of a range. *)
Lemma map_throwing_parse (values : list string) (parsed : list JsValue)
  (w : World S) :
  Forall2 (fun text v => JSON_parse text = inr v) values parsed ->
  map_throwing (ElastiCache.JSON_parse_or_throw (S:=S)) values w
    = (Fulfilled parsed, w).
Proof.
  induction 1 as [| text v values parsed Hparse _ IH]; [reflexivity |].
  cbn [map_throwing]. unfold bind at 1, ElastiCache.JSON_parse_or_throw at 1.
  rewrite Hparse. unfold ret at 1. unfold bind at 1. rewrite IH. reflexivity.
Qed.

(** A non-empty range read with parsing is returned decoded, element by
    element. *)
Lemma listGet_parsed (key : string) (start stop : option Z)
  (values : list string) (parsed : list JsValue) (w w1 : World S) :
  call (CmdLRange key (default 0 start) (default (-1) stop))
       (c_lRange (ElastiCache.client this) key (default 0 start)
                 (default (-1) stop)) w
    = (Fulfilled values, w1) ->
  values <> [] ->
  Forall2 (fun text v => JSON_parse text = inr v) values parsed ->
  ElastiCache.listGet this key start stop (Some true) w
    = (Fulfilled (VArr parsed), w1).
Proof.
  intros Hcall Hne Hparsed. unfold ElastiCache.listGet.
  destruct values as [| v values]; [congruence |].
  change (default false (Some true)) with true.
  unfold_async. rewrite Hcall. cbn [length Nat.eqb].
  pose proof (map_throwing_parse _ _ w1 Hparsed) as Hmap.
  cbv beta iota zeta. rewrite Hmap. reflexivity.
Qed.

(** Decoding touches neither the store nor the console. *)
Lemma map_throwing_parse_world (values : list string) (w : World S) :
  snd (map_throwing (ElastiCache.JSON_parse_or_throw (S:=S)) values w) = w.
Proof.
  induction values as [| text values IH]; [reflexivity |].
  cbn [map_throwing]. unfold bind at 1, ElastiCache.JSON_parse_or_throw at 1.
  destruct (JSON_parse text) as [e | v]; [reflexivity |].
  unfold ret at 1. unfold bind at 1.
  destruct (map_throwing _ values w) as [[vs | err] w']; exact IH.
Qed.

(** The one command of [listGet] is the range read, with the bounds it was
    given. *)
Lemma listGet_issued (key : string) (start stop : option Z)
  (parse : option bool) (w : World S) :
  issued (snd (ElastiCache.listGet this key start stop parse w))
    = (issued w ++ [CmdLRange key (default 0 start) (default (-1) stop)])%list.
Proof.
  unfold ElastiCache.listGet. unfold_async.
  pose proof (call_issued
                (CmdLRange key (default 0 start) (default (-1) stop))
                (c_lRange (ElastiCache.client this) key (default 0 start)
                   (default (-1) stop)) w) as Hsent.
  destruct (call _ _ w) as [[values | thrown] w1]; cbn [snd] in Hsent.
  - destruct values as [| v values]; cbn [length Nat.eqb].
    + destruct (ElastiCache.dev this); exact Hsent.
    + destruct (default false parse); [| exact Hsent].
      pose proof (map_throwing_parse_world (v :: values) w1) as Hpure.
      destruct (map_throwing _ (v :: values) w1) as [[vs | err] w2].
      all: cbn [snd] in Hpure; subst w2.
      all: destruct (ElastiCache.dev this); exact Hsent.
  - destruct (ElastiCache.dev this); exact Hsent.
Qed.

(** *** [refreshKey] *)

(** C2 (amended): when [expire] answers zero, [refreshKey] rejects with the
    [HttpError] of status 404 and message [Key not found]: the [catch]
    clause rethrows it. *)
Theorem refreshKey_absent_key_rejects (key : string) (ttl : Z) (w w1 : World S) :
  call (CmdExpire key ttl) (c_expire (ElastiCache.client this) key ttl) w
    = (Fulfilled 0, w1) ->
  fst (ElastiCache.refreshKey this key ttl w) = Rejected (NotFound "Key not found").
Proof.
  intros Hcall. unfold ElastiCache.refreshKey. step_with Hcall; reflexivity.
Qed.

(** C10: a store-level failure of [expire] is swallowed and the call resolves;
    whatever [expire] does, the one error [refreshKey] can reject with is the
    [HttpError] of status 404, never one of status 500. *)
Theorem refreshKey_swallows_store_failure (key : string) (ttl : Z)
  (w w1 : World S) (e : NativeError) :
  call (CmdExpire key ttl) (c_expire (ElastiCache.client this) key ttl) w
    = (Rejected (Native e), w1) ->
  (exists w2, ElastiCache.refreshKey this key ttl w = (Fulfilled tt, w2))
  /\ (forall (w' : World S) (err : Thrown),
        rejection (fst (ElastiCache.refreshKey this key ttl w')) = Some err ->
        err = NotFound "Key not found").
Proof.
  intros Hcall. split.
  - unfold ElastiCache.refreshKey. unfold_async. rewrite Hcall. cbn.
    destruct (ElastiCache.dev this); cbn; eexists; reflexivity.
  - intros w' err. unfold ElastiCache.refreshKey. unfold_async.
    destruct (call _ _ w') as [[result | thrown] w2] eqn:Hc.
    + destruct (result =? 0); destruct (ElastiCache.dev this); cbn;
        intros [= <-] || discriminate; reflexivity.
    + apply call_rejects_native in Hc. destruct thrown; [discriminate |].
      destruct (ElastiCache.dev this); cbn; discriminate.
Qed.

(** *** [hashGetAll] *)

(** An empty object is not [null]: it is returned, parsed or not. *)
Lemma hashGetAll_empty_object (key : string) (parse : option bool)
  (w w1 : World S) :
  call (CmdHGetAll key) (c_hGetAll (ElastiCache.client this) key) w
    = (Fulfilled (Some []), w1) ->
  ElastiCache.hashGetAll this key parse w = (Fulfilled (VObj []), w1).
Proof.
  intros Hcall. unfold ElastiCache.hashGetAll. unfold_async. rewrite Hcall.
  destruct (default false parse); reflexivity.
Qed.

(** A [null] reply is classified when logging is off; with logging on, the
    log line throws and the failure is a generic one. *)
Lemma hashGetAll_null (key : string) (parse : option bool) (w w1 : World S) :
  call (CmdHGetAll key) (c_hGetAll (ElastiCache.client this) key) w
    = (Fulfilled None, w1) ->
  fst (ElastiCache.hashGetAll this key parse w)
    = Rejected (if ElastiCache.dev this
                then StoreFailure "Error finding the Redis hash"
                else NotFound "Field not found").
Proof.
  intros Hcall. unfold ElastiCache.hashGetAll. step_with Hcall; reflexivity.
Qed.

(** *** [getTimeToLive] *)

(** C9: the reply [-2] of [ttl] is classified [NotFound] with the message
    [Key not found]; any other reply, [-1] included, is the value returned. *)
Theorem getTimeToLive_spec (key : string) (ttl : Z) (w w1 : World S) :
  call (CmdTtl key) (c_ttl (ElastiCache.client this) key) w
    = (Fulfilled ttl, w1) ->
  (ttl = -2 ->
   fst (ElastiCache.getTimeToLive this key w) = Rejected (NotFound "Key not found"))
  /\ (ttl <> -2 ->
      ElastiCache.getTimeToLive this key w = (Fulfilled (VNum ttl), w1)).
Proof.
  intros Hcall. split; intros Httl; unfold ElastiCache.getTimeToLive.
  - subst ttl. step_with Hcall; reflexivity.
  - unfold_async. rewrite Hcall.
    destruct (Z.eqb_spec ttl (-2)) as [-> | _]; [congruence | reflexivity].
Qed.

(** *** [set] and [get] *)

Lemma call_fulfilled_inv {A} (cmd : Command) (reply : Reply S A)
  (w w1 : World S) (a : A) :
  call cmd reply w = (Fulfilled a, w1) ->
  reply (store w) = (inr a, store w1)
  /\ issued w1 = (issued w ++ [cmd])%list /\ console w1 = console w.
Proof.
  unfold call. destruct (reply (store w)) as [[e | a'] s'];
    intros [= <- <-] || discriminate. auto.
Qed.

(** A fulfilled [set] wrote what [JSON.stringify] returned for the value. *)
Lemma set_fulfilled_inv (key : string) (v : JsValue) (ttl : option Z)
  (w w1 : World S) :
  ElastiCache.set this key v ttl w = (Fulfilled tt, w1) ->
  exists text,
    JSON_stringify v = inr text
    /\ c_set (ElastiCache.client this) key text
             (ElastiCache.set_options ttl) (store w) = (inr tt, store w1).
Proof.
  unfold ElastiCache.set, ElastiCache.JSON_stringify_or_throw. unfold_async.
  destruct (JSON_stringify v) as [e | text].
  - destruct (ElastiCache.dev this); cbn; discriminate.
  - destruct (call _ _ w) as [[[] | thrown] w2] eqn:Hc.
    + apply call_fulfilled_inv in Hc as (Hreply & _ & _).
      destruct (ElastiCache.dev this); cbn; intros [= <-]; eauto.
    + destruct (ElastiCache.dev this); cbn; discriminate.
Qed.

(** A fulfilled [get] with parsing read a text and decoded it. *)
Lemma get_parsed_inv (key : string) (r : JsValue) (w w1 : World S) :
  ElastiCache.get this key (Some true) w = (Fulfilled r, w1) ->
  exists text,
    c_get (ElastiCache.client this) key (store w) = (inr (Some text), store w1)
    /\ JSON_parse text = inr r.
Proof.
  unfold ElastiCache.get, ElastiCache.JSON_parse_or_throw. unfold_async. cbn.
  destruct (call _ _ w) as [[[text |] | thrown] w2] eqn:Hc.
  - apply call_fulfilled_inv in Hc as (Hreply & _ & _).
    destruct (JSON_parse text) as [e | v] eqn:Hparse.
    + destruct (ElastiCache.dev this); cbn; discriminate.
    + intros [= <- <-]. eauto.
  - destruct (ElastiCache.dev this); cbn; discriminate.
  - destruct (ElastiCache.dev this); cbn;
      destruct (instanceof_HttpError thrown); discriminate.
Qed.

(** C4 (amended): on a client that answers a read with the text last
    written, a value written by a successful [set] and read back by a
    successful [get] with parsing comes back as the decoding of its text;
    it is the value written when the text of the value decodes to that
    value. *)
Theorem set_get_round_trip (key : string) (v r : JsValue) (text : string)
  (ttl : option Z) (w w1 w2 : World S) :
  read_your_write (ElastiCache.client this) ->
  JSON_stringify v = inr (Some text) ->
  ElastiCache.set this key v ttl w = (Fulfilled tt, w1) ->
  ElastiCache.get this key (Some true) w1 = (Fulfilled r, w2) ->
  JSON_parse text = inr r
  /\ (JSON_parse text = inr v -> r = v).
Proof.
  intros Hlaw Hprint Hset Hget.
  apply set_fulfilled_inv in Hset as (text0 & Htext0 & Hset).
  rewrite Hprint in Htext0. injection Htext0 as <-.
  apply get_parsed_inv in Hget as (text' & Hread & Hdecode).
  rewrite (Hlaw _ _ _ _ _ _ _ Hset Hread) in Hdecode.
  split; [exact Hdecode | congruence].
Qed.

End Primitives.

(** ** The composite operations *)

Section PromiseAll.
Context {S A : Type}.

Lemma join_all_fulfilled (vs : list A) :
  join_all (Fulfilled <$> vs) = Fulfilled vs.
Proof.
  induction vs as [| v vs IH]; [reflexivity |]. cbn.
  change (list_fmap A (Settled A) Fulfilled vs) with (Fulfilled <$> vs).
  now rewrite IH.
Qed.

Lemma join_all_first_rejection (rs : list (Settled A)) (err : Thrown) :
  first_rejection rs err -> join_all rs = Rejected err.
Proof.
  intros (vs & rest & ->).
  induction vs as [| v vs IH]; [reflexivity |]. cbn.
  change (list_fmap A (Settled A) Fulfilled vs) with (Fulfilled <$> vs).
  now rewrite IH.
Qed.

(** A rejection of [Promise.all] is the first rejection of a member. *)
Lemma join_all_rejected (rs : list (Settled A)) (err : Thrown) :
  join_all rs = Rejected err -> first_rejection rs err.
Proof.
  induction rs as [| [v | e] rs IH]; cbn.
  - discriminate.
  - destruct (join_all rs) as [vs | e']; [discriminate |].
    intros [= ->]. destruct IH as (vs & rest & ->); [reflexivity |].
    exists (v :: vs), rest. reflexivity.
  - intros [= ->]. exists [], rs. reflexivity.
Qed.

Lemma first_rejection_In (rs : list (Settled A)) (err : Thrown) :
  first_rejection rs err -> In (Rejected err) rs.
Proof.
  intros (vs & rest & ->). apply in_or_app. right. now left.
Qed.

(** If some member rejects, [Promise.all] rejects. *)
Lemma join_all_some_rejection (rs : list (Settled A)) (err0 : Thrown) :
  In (Rejected err0) rs -> exists err, join_all rs = Rejected err.
Proof.
  induction rs as [| [v | e] rs IH]; cbn.
  - intros [].
  - intros [Heq | Hin]; [discriminate |].
    destruct (IH Hin) as (err & ->). eauto.
  - eauto.
Qed.

Lemma settle_all_length (ps : list (Async S A)) (w : World S) :
  length (fst (settle_all ps w)) = length ps.
Proof.
  revert w. induction ps as [| p ps IH]; intros w; cbn; [reflexivity |].
  destruct (p w) as [r w1]. specialize (IH w1).
  destruct (settle_all ps w1) as [rs w2]. cbn in *. now rewrite IH.
Qed.

(** Members that each send one command send them in the order of the list. *)
Lemma settle_all_issued {K} (f : K -> Async S A) (cmd : K -> Command)
  (keys : list K) (w : World S) :
  (forall key w0, issued (snd (f key w0)) = (issued w0 ++ [cmd key])%list) ->
  issued (snd (settle_all (f <$> keys) w)) = (issued w ++ (cmd <$> keys))%list.
Proof.
  intros Hone. revert w. induction keys as [| key keys IH]; intros w; cbn.
  - now rewrite app_nil_r.
  - specialize (Hone key w). destruct (f key w) as [r w1]. cbn in Hone.
    specialize (IH w1).
    change (list_fmap K (Async S A) f keys) with (f <$> keys) in *.
    destruct (settle_all (f <$> keys) w1) as [rs w2]. cbn in *.
    rewrite IH, Hone, <- app_assoc. reflexivity.
Qed.

End PromiseAll.

(** [keys.map((key, index) => pair(key, values[index]))] pairs the two lists
    when they have the same length. *)
Lemma imap_lookup_zip {A B C} (f : A -> B -> C) (d : B) (keys : list A)
  (values : list B) :
  length keys = length values ->
  imap (fun index key => f key (default d (values !! index))) keys
    = zip_with f keys values.
Proof.
  revert values. induction keys as [| key keys IH]; intros [| v values] Hlen;
    try discriminate; [reflexivity |].
  cbn. f_equal. rewrite <- IH by (cbn in Hlen; lia).
  apply imap_ext. reflexivity.
Qed.

Section Composites.
Context {S : Type} {codec : Codec} (this : ElastiCache.t S).

(** *** The members: [get] and [delete] *)

Lemma get_issued (key : string) (parse : option bool) (w : World S) :
  issued (snd (ElastiCache.get this key parse w))
    = (issued w ++ [CmdGet key])%list.
Proof.
  unfold ElastiCache.get, ElastiCache.JSON_parse_or_throw. unfold_async.
  pose proof (call_issued (CmdGet key)
                (c_get (ElastiCache.client this) key) w) as Hsent.
  destruct (call _ _ w) as [[[text |] | thrown] w1]; cbn in Hsent;
    crunch; exact Hsent.
Qed.

Lemma delete_issued (key : string) (w : World S) :
  issued (snd (ElastiCache.delete this key w))
    = (issued w ++ [CmdDel key])%list.
Proof.
  unfold ElastiCache.delete. unfold_async.
  pose proof (call_issued (CmdDel key)
                (c_del (ElastiCache.client this) key) w) as Hsent.
  destruct (call _ _ w) as [[result | thrown] w1]; cbn in Hsent;
    crunch; exact Hsent.
Qed.

(** [delete] leaves the store as the [DEL] of the client left it, and so do
    the deletes of a list of keys, one after the other. *)
Lemma delete_store (key : string) (w : World S) :
  store (snd (ElastiCache.delete this key w))
    = snd (c_del (ElastiCache.client this) key (store w)).
Proof.
  unfold ElastiCache.delete. unfold_async. unfold call.
  destruct (c_del (ElastiCache.client this) key (store w)) as [[e | n] s1];
    crunch; reflexivity.
Qed.

Lemma settle_all_delete_store (keys : list string) (w : World S) :
  store (snd (settle_all (ElastiCache.delete this <$> keys) w))
    = purged (ElastiCache.client this) keys (store w).
Proof.
  revert w. induction keys as [| key keys IH]; intros w; [reflexivity |].
  cbn [fmap list_fmap settle_all].
  pose proof (delete_store key w) as Hone.
  destruct (ElastiCache.delete this key w) as [r w1]. cbn [snd] in Hone.
  specialize (IH w1).
  change (list_fmap string (Async S unit) (ElastiCache.delete this) keys)
    with (ElastiCache.delete this <$> keys).
  destruct (settle_all (ElastiCache.delete this <$> keys) w1) as [rs w2].
  cbn [snd] in *. rewrite IH, Hone. reflexivity.
Qed.

(** Whatever [get] and [delete] reject with is an [HttpError]. *)
Lemma get_rejects_classified (key : string) (parse : option bool)
  (w : World S) (err : Thrown) :
  rejection (fst (ElastiCache.get this key parse w)) = Some err ->
  instanceof_HttpError err = true.
Proof.
  unfold ElastiCache.get, ElastiCache.JSON_parse_or_throw. unfold_async.
  destruct (call _ _ w) as [[[text |] | thrown] w1]; crunch;
    intros [= <-] || discriminate; congruence || auto.
Qed.

Lemma delete_rejects_classified (key : string) (w : World S) (err : Thrown) :
  rejection (fst (ElastiCache.delete this key w)) = Some err ->
  instanceof_HttpError err = true.
Proof.
  unfold ElastiCache.delete. unfold_async.
  destruct (call _ _ w) as [[result | thrown] w1]; crunch;
    intros [= <-] || discriminate; congruence || auto.
Qed.

(** *** [getAll]: the loop and its specification *)

Lemma read_typed_recognised (type key : string) :
  is_Some (read_typed this type key) <-> recognised type = true.
Proof.
  unfold read_typed, recognised.
  destruct (String.eqb type "string"), (String.eqb type "list"),
    (String.eqb type "hash"); cbn; split;
    (reflexivity || discriminate || eauto || inversion 1; discriminate).
Qed.

(** One turn of the loop on a key of a recognised type. *)
Lemma getAll_loop_read (key type : string) (read : Async S JsValue)
  (keys : list string) (values : list JsValue) (w w1 : World S) :
  call (CmdType key) (c_type (ElastiCache.client this) key) w
    = (Fulfilled type, w1) ->
  read_typed this type key = Some read ->
  ElastiCache.getAll_loop this (key :: keys) values w
    = match read w1 with
      | (Fulfilled v, w2) =>
          ElastiCache.getAll_loop this keys (values ++ [record (key, v)]) w2
      | (Rejected err, w2) => (Rejected err, w2)
      end.
Proof.
  intros Htype Hread. cbn [ElastiCache.getAll_loop]. unfold bind at 1.
  rewrite Htype. unfold read_typed in Hread. unfold record.
  destruct (String.eqb type "string");
    [injection Hread as <-; reflexivity |].
  destruct (String.eqb type "list");
    [injection Hread as <-; reflexivity |].
  destruct (String.eqb type "hash");
    [injection Hread as <-; reflexivity | discriminate].
Qed.

(** One turn of the loop on a key of any other type. *)
Lemma getAll_loop_skip (key type : string) (keys : list string)
  (values : list JsValue) (w w1 : World S) :
  call (CmdType key) (c_type (ElastiCache.client this) key) w
    = (Fulfilled type, w1) ->
  read_typed this type key = None ->
  ElastiCache.getAll_loop this (key :: keys) values w
    = ElastiCache.getAll_loop this keys values w1.
Proof.
  intros Htype Hread. cbn [ElastiCache.getAll_loop]. unfold bind at 1.
  rewrite Htype. unfold read_typed in Hread.
  destruct (String.eqb type "string"); [discriminate |].
  destruct (String.eqb type "list"); [discriminate |].
  destruct (String.eqb type "hash"); [discriminate | reflexivity].
Qed.

(** The loop follows a snapshot and goes on with the keys left. *)
Lemma getAll_loop_snapshot (keys types : list string)
  (records : list (string * JsValue)) (w w' : World S) :
  Snapshot this w keys types records w' ->
  forall (rest : list string) (values : list JsValue),
    ElastiCache.getAll_loop this (keys ++ rest) values w
      = ElastiCache.getAll_loop this rest (values ++ (record <$> records)) w'.
Proof.
  induction 1 as [w | w key type w1 read v w2 keys types records w3
                       Htype Hread Hrun _ IH
                    | w key type w1 keys types records w3 Htype Hread _ IH];
    intros rest values.
  - cbn. now rewrite app_nil_r.
  - rewrite <- app_comm_cons, (getAll_loop_read _ _ _ _ _ _ _ Htype Hread), Hrun.
    rewrite IH, <- app_assoc. reflexivity.
  - rewrite <- app_comm_cons, (getAll_loop_skip _ _ _ _ _ _ Htype Hread).
    apply IH.
Qed.

(** A snapshot holds one record per key of a recognised type, in the order
    of the keys, and none for the others. *)
Lemma Snapshot_keys (keys types : list string)
  (records : list (string * JsValue)) (w w' : World S) :
  Snapshot this w keys types records w' ->
  length types = length keys
  /\ records.*1
     = (List.filter (fun kt => recognised (snd kt)) (zip keys types)).*1.
Proof.
  induction 1 as [w | w key type w1 read v w2 keys types records w3
                       Htype Hread Hrun _ [IHlen IH]
                    | w key type w1 keys types records w3 Htype Hread _
                        [IHlen IH]].
  - split; reflexivity.
  - split; [cbn; now rewrite IHlen |]. cbn.
    assert (recognised type = true) as ->
      by (apply (read_typed_recognised type key); rewrite Hread; eauto).
    cbn. now rewrite IH.
  - split; [cbn; now rewrite IHlen |]. cbn.
    assert (recognised type = false) as ->.
    { destruct (recognised type) eqn:Hrec; [| reflexivity].
      apply (read_typed_recognised type key) in Hrec as [read Hsome].
      congruence. }
    exact IH.
Qed.

(** C7: [getAll] enumerates the keys of pattern [*]; with none it fails
    [NotFound]; otherwise it inspects the type of each key in turn and, when
    every primitive read succeeds, returns one record per key of type
    [string] (read by [get]), [list] (by [listGet] over the whole range) or
    [hash] (by [hashGetAll]), each with parsing, in the order of the keys;
    a key of another type has no record. *)
Theorem getAll_spec (keys : list string) (w w1 : World S) :
  call (CmdKeys "*") (c_keys (ElastiCache.client this) "*") w
    = (Fulfilled keys, w1) ->
  (keys = [] ->
   fst (ElastiCache.getAll this w) = Rejected (NotFound "No keys found"))
  /\ (forall (types : list string) (records : list (string * JsValue))
             (w2 : World S),
        keys <> [] ->
        Snapshot this w1 keys types records w2 ->
        ElastiCache.getAll this w = (Fulfilled (VArr (record <$> records)), w2)
        /\ records.*1
           = (List.filter (fun kt => recognised (snd kt)) (zip keys types)).*1).
Proof.
  intros Hkeys. split.
  - intros ->. unfold ElastiCache.getAll. step_with Hkeys; reflexivity.
  - intros types records w2 Hne Hsnap. split.
    + unfold ElastiCache.getAll. unfold_async. rewrite Hkeys.
      destruct keys as [| key keys']; [congruence |].
      cbn [length Nat.eqb].
      pose proof (getAll_loop_snapshot _ _ _ _ _ Hsnap [] []) as Hloop.
      rewrite app_nil_r in Hloop. cbn [app] in Hloop.
      unfold bind, ret in Hloop. rewrite Hloop. reflexivity.
    + apply (Snapshot_keys _ _ _ _ _ Hsnap).
Qed.

(** C6: [getByPrefix] enumerates the keys of pattern [<prefix>:*]; with none
    it fails [NotFound] with the message [Index not found]; otherwise it
    sends one [GET] per key, in the order of the enumeration, and when every
    [get] with parsing succeeds it returns the records [{key: value}] in
    that order. *)
Theorem getByPrefix_spec (prefix : string) (keys : list string)
  (w w1 : World S) :
  call (CmdKeys (prefix +:+ ":*"))
       (c_keys (ElastiCache.client this) (prefix +:+ ":*")) w
    = (Fulfilled keys, w1) ->
  (keys = [] ->
   fst (ElastiCache.getByPrefix this prefix w)
     = Rejected (NotFound "Index not found"))
  /\ (keys <> [] ->
      issued (snd (ElastiCache.getByPrefix this prefix w))
        = (issued w ++ CmdKeys (prefix +:+ ":*") :: (CmdGet <$> keys))%list
      /\ forall (values : list JsValue) (w2 : World S),
          settle_all ((fun key => ElastiCache.get this key (Some true)) <$> keys)
                     w1
            = (Fulfilled <$> values, w2) ->
          ElastiCache.getByPrefix this prefix w
            = (Fulfilled (VArr (zip_with (fun key value => record (key, value))
                                         keys values)), w2)).
Proof.
  intros Hkeys. split; [| intros Hne; split].
  - intros ->. unfold ElastiCache.getByPrefix. step_with Hkeys; reflexivity.
  - pose proof (settle_all_issued
                  (fun key => ElastiCache.get this key (Some true)) CmdGet
                  keys w1 (fun key w0 => get_issued key (Some true) w0))
      as Hsent.
    apply call_fulfilled_inv in Hkeys as Hw1. destruct Hw1 as (_ & Hw1 & _).
    rewrite Hw1, <- app_assoc in Hsent. cbn [app] in Hsent.
    unfold ElastiCache.getByPrefix, Promise_all. unfold_async. rewrite Hkeys.
    destruct keys as [| key keys']; [congruence |]. cbn [length Nat.eqb].
    destruct (settle_all _ w1) as [rs w2]. cbn [snd] in Hsent.
    destruct (join_all rs); crunch; exact Hsent.
  - intros values w2 Hrun.
    unfold ElastiCache.getByPrefix, Promise_all. unfold_async. rewrite Hkeys.
    destruct keys as [| key keys']; [congruence |]. cbn [length Nat.eqb].
    rewrite Hrun, join_all_fulfilled.
    pose proof (settle_all_length
                  ((fun key => ElastiCache.get this key (Some true))
                     <$> key :: keys') w1) as Hlen.
    rewrite Hrun in Hlen. cbn [fst] in Hlen. rewrite !length_fmap in Hlen.
    rewrite (imap_lookup_zip (fun key value => VObj [(key, value)]))
      by (symmetry; exact Hlen).
    reflexivity.
Qed.

(** C8: [deleteAll] enumerates the keys of its pattern, [*] by default; with
    none it fails [NotFound] with the message [No keys found], sends no
    [DEL] and leaves the store as the enumeration left it; otherwise it
    sends one [DEL] per key and leaves the store as the client's [DEL] of
    every key, one after the other, leaves it, whatever the outcome; it
    resolves when every [delete] does, and when one fails it fails with the
    error of the first member that failed and reports nothing else. *)
Theorem deleteAll_spec (pattern : option string) (keys : list string)
  (w w1 : World S) :
  call (CmdKeys (default "*" pattern))
       (c_keys (ElastiCache.client this) (default "*" pattern)) w
    = (Fulfilled keys, w1) ->
  (keys = [] ->
   fst (ElastiCache.deleteAll this pattern w)
     = Rejected (NotFound "No keys found")
   /\ issued (snd (ElastiCache.deleteAll this pattern w))
      = (issued w ++ [CmdKeys (default "*" pattern)])%list
   /\ store (snd (ElastiCache.deleteAll this pattern w)) = store w1)
  /\ (keys <> [] ->
      issued (snd (ElastiCache.deleteAll this pattern w))
        = (issued w ++ CmdKeys (default "*" pattern) :: (CmdDel <$> keys))%list
      /\ store (snd (ElastiCache.deleteAll this pattern w))
         = purged (ElastiCache.client this) keys (store w1)
      /\ forall (rs : list (Settled unit)) (w2 : World S),
          settle_all (ElastiCache.delete this <$> keys) w1 = (rs, w2) ->
          store (snd (ElastiCache.deleteAll this pattern w)) = store w2
          /\ (Forall (fun r => r = Fulfilled tt) rs ->
              fst (ElastiCache.deleteAll this pattern w) = Fulfilled tt)
          /\ (forall err0, In (Rejected err0) rs ->
              exists err,
                first_rejection rs err
                /\ fst (ElastiCache.deleteAll this pattern w) = Rejected err)).
Proof.
  intros Hkeys.
  apply call_fulfilled_inv in Hkeys as Hw1. destruct Hw1 as (_ & Hw1 & Hc1).
  assert (forall rs w2,
            keys <> [] ->
            settle_all (ElastiCache.delete this <$> keys) w1 = (rs, w2) ->
            store (snd (ElastiCache.deleteAll this pattern w)) = store w2)
    as Hstore.
  { intros rs w2 Hne Hrun.
    unfold ElastiCache.deleteAll, Promise_all. unfold_async. rewrite Hkeys.
    destruct keys as [| key keys']; [congruence |]. cbn [length Nat.eqb].
    rewrite Hrun. destruct (join_all rs); crunch; reflexivity. }
  split; [intros -> | intros Hne; split; [| split]].
  - unfold ElastiCache.deleteAll. unfold_async. rewrite Hkeys.
    destruct (ElastiCache.dev this); cbn; rewrite Hw1; repeat split; reflexivity.
  - pose proof (settle_all_issued (ElastiCache.delete this) CmdDel keys w1
                  (delete_issued)) as Hsent.
    rewrite Hw1, <- app_assoc in Hsent. cbn [app] in Hsent.
    unfold ElastiCache.deleteAll, Promise_all. unfold_async. rewrite Hkeys.
    destruct keys as [| key keys']; [congruence |]. cbn [length Nat.eqb].
    destruct (settle_all _ w1) as [rs w2]. cbn [snd] in Hsent.
    destruct (join_all rs); crunch; exact Hsent.
  - pose proof (settle_all_delete_store keys w1) as Hpurged.
    destruct (settle_all (ElastiCache.delete this <$> keys) w1) as [rs w2]
      eqn:Hrun.
    rewrite (Hstore rs w2 Hne eq_refl). exact Hpurged.
  - intros rs w2 Hrun. split; [exact (Hstore rs w2 Hne Hrun) |].
    assert (forall err, In (Rejected err) rs -> instanceof_HttpError err = true)
      as Hclassified.
    { clear Hne Hkeys Hw1 Hc1 Hstore. revert w1 rs w2 Hrun.
      induction keys as [| key keys' IH]; intros w1 rs w2; cbn.
      - intros [= <- _] err [].
      - destruct (ElastiCache.delete this key w1) as [r w3] eqn:Hdel.
        change (list_fmap string (Async S unit) (ElastiCache.delete this) keys')
          with (ElastiCache.delete this <$> keys').
        destruct (settle_all _ w3) as [rs' w4] eqn:Hrest.
        intros [= <- _] err [-> | Hin].
        + apply (delete_rejects_classified key w1). now rewrite Hdel.
        + eapply IH; eauto. }
    unfold ElastiCache.deleteAll, Promise_all. unfold_async. rewrite Hkeys.
    destruct keys as [| key keys']; [congruence |]. cbn [length Nat.eqb].
    rewrite Hrun. split.
    + intros Hall.
      assert (join_all rs = Fulfilled (const tt <$> rs)) as ->.
      { clear -Hall. induction Hall as [| r rs -> _ IH]; [reflexivity |].
        cbn. change (list_fmap (Settled unit) unit (const tt) rs)
               with (const (B:=Settled unit) tt <$> rs).
        now rewrite IH. }
      destruct (ElastiCache.dev this); reflexivity.
    + intros err0 Hin.
      destruct (join_all_some_rejection rs err0 Hin) as (err & Hjoin).
      exists err. split; [now apply join_all_rejected |].
      rewrite Hjoin.
      assert (instanceof_HttpError err = true) as Hc
        by (apply Hclassified, first_rejection_In, join_all_rejected, Hjoin).
      crunch; congruence.
Qed.

(** C5: in [getByPrefix], [getAll] and [deleteAll], the [HttpError] a
    primitive operation on a member key raises is the rejection of the
    composite: the same object, with its status code and its message. *)
Theorem composite_forwards_classified_error (c : Composite) (w : World S)
  (e : HttpError) :
  member_raises this c w (HttpErr e) ->
  composite_rejection this c w = Some (HttpErr e).
Proof.
  intros Hraise. inversion Hraise; subst; cbn [composite_rejection].
  - match goal with H : first_rejection _ _ |- _ =>
      apply join_all_first_rejection in H as Hjoin end.
    match goal with H : call _ _ w = _ |- _ => rename H into Hkeys end.
    match goal with H : settle_all _ _ = _ |- _ => rename H into Hrun end.
    unfold ElastiCache.getByPrefix, Promise_all. unfold_async. rewrite Hkeys.
    destruct keys as [| key keys']; [congruence |]. cbn [length Nat.eqb].
    rewrite Hrun, Hjoin. destruct (ElastiCache.dev this); reflexivity.
  - match goal with H : call (CmdKeys _) _ w = _ |- _ => rename H into Hkeys end.
    match goal with H : Snapshot _ _ _ _ _ _ |- _ => rename H into Hsnap end.
    match goal with H : call (CmdType _) _ _ = _ |- _ => rename H into Htype end.
    match goal with H : read_typed _ _ _ = _ |- _ => rename H into Hread end.
    match goal with H : read _ = (Rejected _, _) |- _ => rename H into Hfail end.
    unfold ElastiCache.getAll. unfold_async. rewrite Hkeys.
    destruct done as [| k0 done']; cbn [app length Nat.eqb].
    + inversion Hsnap; subst.
      pose proof (getAll_loop_read _ _ _ rest [] _ _ Htype Hread) as Hloop.
      unfold bind in Hloop. rewrite Hloop, Hfail.
      destruct (ElastiCache.dev this); reflexivity.
    + pose proof (getAll_loop_snapshot _ _ _ _ _ Hsnap (key :: rest) [])
        as Hloop.
      rewrite (getAll_loop_read _ _ _ rest _ _ _ Htype Hread), Hfail in Hloop.
      unfold bind in Hloop. rewrite <- app_comm_cons in Hloop. rewrite Hloop.
      destruct (ElastiCache.dev this); reflexivity.
  - match goal with H : first_rejection _ _ |- _ =>
      apply join_all_first_rejection in H as Hjoin end.
    match goal with H : call _ _ w = _ |- _ => rename H into Hkeys end.
    match goal with H : settle_all _ _ = _ |- _ => rename H into Hrun end.
    unfold ElastiCache.deleteAll, Promise_all. unfold_async. rewrite Hkeys.
    destruct keys as [| key keys']; [congruence |]. cbn [length Nat.eqb].
    rewrite Hrun, Hjoin. destruct (ElastiCache.dev this); reflexivity.
Qed.

End Composites.

(** ** The facade on the in-memory Redis *)

Section OnMemRedis.
#[local] Existing Instance Json.codec.
Import Fixtures.

(** The in-memory client answers a read with the text last written. *)
Lemma MemRedis_read_your_write : read_your_write MemRedis.client.
Proof.
  intros key text ex [[] db ttls] s1 r s2; cbn; [| discriminate].
  destruct ex as [seconds |];
    [destruct (seconds <=? 0); [discriminate |] |];
    intros [= <-]; cbn; rewrite lookup_insert_eq; congruence.
Qed.

(** C1: [listGet] on a key that holds no list: the range read is empty, and
    the call rejects with status 500 and the message of the [catch] clause,
    not with the [HttpError] of status 404 and message [List is empty] that
    the [try] block threw. *)
Theorem listGet_empty_list_is_rewrapped :
  call (CmdLRange "missing" 0 (-1)) (c_lRange MemRedis.client "missing" 0 (-1))
       fresh
    = (Fulfilled [], mkWorld MemRedis.empty [CmdLRange "missing" 0 (-1)] [])
  /\ fst (ElastiCache.listGet cache "missing" None None None fresh)
     = Rejected (StoreFailure "Error fetching from Redis list")
  /\ fst (ElastiCache.listGet cache "missing" None None None fresh)
     <> Rejected (NotFound "List is empty").
Proof.
  split; [reflexivity |].
  rewrite (listGet_empty_range cache "missing" None None None fresh _ eq_refl).
  split; [reflexivity | discriminate].
Qed.

(** C3: [hashGetAll] on a key that holds no hash: the whole-hash read is the
    empty object, and the call resolves with it, parsed or not. *)
Theorem hashGetAll_empty_hash_is_returned :
  call (CmdHGetAll "missing") (c_hGetAll MemRedis.client "missing") fresh
    = (Fulfilled (Some []), mkWorld MemRedis.empty [CmdHGetAll "missing"] [])
  /\ fst (ElastiCache.hashGetAll cache "missing" (Some true) fresh)
     = Fulfilled (VObj [])
  /\ fst (ElastiCache.hashGetAll cache "missing" (Some false) fresh)
     = Fulfilled (VObj []).
Proof.
  split; [reflexivity |].
  rewrite !(hashGetAll_empty_object cache "missing" _ fresh _ eq_refl).
  split; reflexivity.
Qed.

(** C2, as stated, fails: on a fresh server [expire] answers zero and
    [refreshKey] does not resolve. *)
Lemma refreshKey_missing_key_is_not_silent : ~ refreshKey_swallows_NotFound.
Proof.
  intros Hclaim.
  destruct (Hclaim MemRedis.Store Json.codec cache "missing" 60 fresh _ eq_refl)
    as (w2 & Hrun).
  apply (f_equal fst) in Hrun. cbn in Hrun. discriminate.
Qed.

(** C4, as stated, fails: [JSON.stringify] writes an array that holds
    [undefined] as the text of an array that holds [null]; [set] stores that
    text and [get] with parsing returns the array that holds [null]. *)
Lemma set_get_loses_undefined_element :
  ~ written_value_is_read_back (codec:=Json.codec).
Proof.
  intros Hclaim.
  pose (w1 := snd (ElastiCache.set cache "k" (VArr [VUndefined]) None fresh)).
  pose (w2 := snd (ElastiCache.get cache "k" (Some true) w1)).
  assert (VArr [VNull] = VArr [VUndefined]) as Hsame.
  { apply (Hclaim MemRedis.Store cache "k" (VArr [VUndefined]) (VArr [VNull])
             "[null]" None fresh w1 w2).
    - exact MemRedis_read_your_write.
    - reflexivity.
    - vm_compute; reflexivity.
    - vm_compute; reflexivity. }
  discriminate Hsame.
Qed.

(** On the in-memory Redis with the codec of the tests, [set] and [get]
    with parsing do succeed on a plain value, and the value read back is the
    value written. *)
Theorem set_get_round_trip_on_MemRedis (dev0 : bool) (key : string)
  (v : JsValue) (ttl : option Z) (w : World MemRedis.Store) :
  Json.plain v = true ->
  MemRedis.connected (store w) = true ->
  (forall seconds, ttl = Some seconds -> 0 <= seconds) ->
  exists w1 w2,
    ElastiCache.set (ElastiCache.new MemRedis.client dev0) key v ttl w
      = (Fulfilled tt, w1)
    /\ ElastiCache.get (ElastiCache.new MemRedis.client dev0) key (Some true) w1
       = (Fulfilled v, w2).
Proof.
  intros Hplain Hopen Httl.
  destruct (JsonFacts.plain_stringify v Hplain) as (text & Htext).
  pose proof (JsonFacts.parse_stringify v text Hplain Htext) as Hparse.
  destruct w as [[opened db ttls] sent lines]. cbn in Hopen. subst opened.
  assert (exists s1,
             c_set MemRedis.client key (Some text) (ElastiCache.set_options ttl)
                   (MemRedis.mkStore true db ttls) = (inr tt, s1)
             /\ MemRedis.connected s1 = true
             /\ MemRedis.db s1 !! key = Some (MemRedis.EString text))
    as (s1 & Hset & Hopen1 & Hlookup).
  { cbn. unfold ElastiCache.set_options.
    destruct ttl as [seconds |]; [specialize (Httl seconds eq_refl) |].
    - destruct (Z.eqb_spec seconds 0) as [-> | Hnz].
      + eexists; split; [reflexivity |]. cbn. now rewrite lookup_insert_eq.
      + destruct (Z.leb_spec seconds 0); [lia |].
        eexists; split; [reflexivity |]. cbn. now rewrite lookup_insert_eq.
    - eexists; split; [reflexivity |]. cbn. now rewrite lookup_insert_eq. }
  destruct s1 as [opened1 db1 ttls1]. cbn in Hopen1, Hlookup. subst opened1.
  destruct dev0.
  all: eexists; eexists; split;
    [ unfold ElastiCache.set, ElastiCache.JSON_stringify_or_throw;
      change JSON_stringify with Json.stringify; rewrite Htext;
      unfold_async; unfold call;
      cbn [store ElastiCache.client ElastiCache.dev]; rewrite Hset;
      reflexivity
    | unfold ElastiCache.get, ElastiCache.JSON_parse_or_throw; unfold_async;
      unfold call; cbn; rewrite Hlookup;
      change JSON_parse with Json.parse; rewrite Hparse; reflexivity ].
Qed.

(** *** The theorems at work *)

(** [refreshKey] on a fresh server: [expire] answers zero. *)
Lemma refreshKey_absent_key_rejects_witness :
  call (CmdExpire "missing" 60) (c_expire MemRedis.client "missing" 60) fresh
    = (Fulfilled 0, mkWorld MemRedis.empty [CmdExpire "missing" 60] [])
  /\ fst (ElastiCache.refreshKey cache "missing" 60 fresh)
     = Rejected (NotFound "Key not found").
Proof.
  split; [reflexivity |].
  apply (refreshKey_absent_key_rejects cache "missing" 60 fresh
           (mkWorld MemRedis.empty [CmdExpire "missing" 60] [])).
  reflexivity.
Defined.

(** [refreshKey] on a client that is not connected. *)
Lemma refreshKey_swallows_store_failure_witness :
  call (CmdExpire "k" 60) (c_expire MemRedis.client "k" 60) offline
    = (Rejected (Native MemRedis.ClientClosedError),
       mkWorld (store offline) [CmdExpire "k" 60] [])
  /\ exists w2, ElastiCache.refreshKey cache "k" 60 offline = (Fulfilled tt, w2).
Proof.
  split; [reflexivity |].
  apply (refreshKey_swallows_store_failure cache "k" 60 offline
           (mkWorld (store offline) [CmdExpire "k" 60] [])
           MemRedis.ClientClosedError).
  reflexivity.
Defined.

(** [getTimeToLive] of a key written without a TTL: the reply is [-1]. *)
Lemma getTimeToLive_spec_witness :
  call (CmdTtl "kept") (c_ttl MemRedis.client "kept") kept_only
    = (Fulfilled (-1), mkWorld (store kept_only) [CmdTtl "kept"] [])
  /\ ElastiCache.getTimeToLive cache "kept" kept_only
     = (Fulfilled (VNum (-1)), mkWorld (store kept_only) [CmdTtl "kept"] []).
Proof.
  split; [vm_compute; reflexivity |].
  apply (getTimeToLive_spec cache "kept" (-1) kept_only
           (mkWorld (store kept_only) [CmdTtl "kept"] []));
    [vm_compute; reflexivity | lia].
Defined.

(** The first test of the suite: [set] then [get] of the object [john]. *)
Lemma set_get_round_trip_witness :
  read_your_write MemRedis.client
  /\ JSON_stringify john = inr (Some john_text)
  /\ exists (w1 w2 : World MemRedis.Store) (r : JsValue),
       ElastiCache.set cache "test:key1" john None fresh = (Fulfilled tt, w1)
       /\ ElastiCache.get cache "test:key1" (Some true) w1 = (Fulfilled r, w2)
       /\ JSON_parse john_text = inr r
       /\ (JSON_parse john_text = inr john -> r = john).
Proof.
  split; [exact MemRedis_read_your_write |].
  split; [reflexivity |].
  eexists _, _, _.
  split; [vm_compute; reflexivity |]. split; [vm_compute; reflexivity |].
  eapply (set_get_round_trip cache "test:key1" john _ john_text None fresh).
  - exact MemRedis_read_your_write.
  - reflexivity.
  - vm_compute; reflexivity.
  - vm_compute; reflexivity.
Defined.

(** The prefix test of the suite: two users under [users:]. *)
Lemma getByPrefix_spec_witness :
  call (CmdKeys "users:*") (c_keys MemRedis.client "users:*") users
    = (Fulfilled ["users:1"; "users:2"],
       mkWorld (store users) [CmdKeys "users:*"] [])
  /\ issued (snd (ElastiCache.getByPrefix cache "users" users))
     = [CmdKeys "users:*"; CmdGet "users:1"; CmdGet "users:2"]
  /\ fst (ElastiCache.getByPrefix cache "users" users)
     = Fulfilled (VArr [record ("users:1", alice); record ("users:2", bob)]).
Proof.
  assert (call (CmdKeys "users:*") (c_keys MemRedis.client "users:*") users
          = (Fulfilled ["users:1"; "users:2"],
             mkWorld (store users) [CmdKeys "users:*"] [])) as Hkeys
    by (vm_compute; reflexivity).
  split; [exact Hkeys |].
  destruct (getByPrefix_spec cache "users" ["users:1"; "users:2"] users
              (mkWorld (store users) [CmdKeys "users:*"] []) Hkeys)
    as [_ Hsome].
  destruct (Hsome ltac:(discriminate)) as [Hsent Hvalues].
  split; [exact Hsent |].
  rewrite (Hvalues [alice; bob]
             (mkWorld (store users)
                [CmdKeys "users:*"; CmdGet "users:1"; CmdGet "users:2"] []))
    by (vm_compute; reflexivity).
  reflexivity.
Defined.

(** [getAll] with a listing that is out of date: [kept] is a string and
    gives a record, [ghost] has type [none] and gives nothing. *)
Lemma getAll_spec_witness :
  call (CmdKeys "*") (c_keys (ElastiCache.client late_cache) "*") kept_only
    = (Fulfilled ["kept"; "ghost"], mkWorld (store kept_only) [CmdKeys "*"] [])
  /\ Snapshot late_cache (mkWorld (store kept_only) [CmdKeys "*"] [])
       ["kept"; "ghost"] ["string"; "none"] [("kept", VNum 7)]
       (mkWorld (store kept_only)
          [CmdKeys "*"; CmdType "kept"; CmdGet "kept"; CmdType "ghost"] [])
  /\ fst (ElastiCache.getAll late_cache kept_only)
     = Fulfilled (VArr [record ("kept", VNum 7)]).
Proof.
  assert (call (CmdKeys "*") (c_keys (ElastiCache.client late_cache) "*")
               kept_only
          = (Fulfilled ["kept"; "ghost"],
             mkWorld (store kept_only) [CmdKeys "*"] [])) as Hkeys
    by (vm_compute; reflexivity).
  assert (Snapshot late_cache (mkWorld (store kept_only) [CmdKeys "*"] [])
            ["kept"; "ghost"] ["string"; "none"] [("kept", VNum 7)]
            (mkWorld (store kept_only)
               [CmdKeys "*"; CmdType "kept"; CmdGet "kept"; CmdType "ghost"] []))
    as Hsnap.
  { eapply (Snapshot_read late_cache _ "kept" "string"
              (mkWorld (store kept_only) [CmdKeys "*"; CmdType "kept"] [])
              (ElastiCache.get late_cache "kept" (Some true)) (VNum 7)
              (mkWorld (store kept_only)
                 [CmdKeys "*"; CmdType "kept"; CmdGet "kept"] []));
      [vm_compute; reflexivity | reflexivity | vm_compute; reflexivity |].
    eapply (Snapshot_skip late_cache _ "ghost" "none"
              (mkWorld (store kept_only)
                 [CmdKeys "*"; CmdType "kept"; CmdGet "kept"; CmdType "ghost"]
                 []));
      [vm_compute; reflexivity | reflexivity |].
    apply Snapshot_done. }
  split; [exact Hkeys |]. split; [exact Hsnap |].
  destruct (getAll_spec late_cache ["kept"; "ghost"] kept_only _ Hkeys)
    as [_ Hsome].
  destruct (Hsome _ _ _ ltac:(discriminate) Hsnap) as [Hrun _].
  rewrite Hrun. reflexivity.
Defined.

(** [deleteAll] with a listing that is out of date: both keys get a [DEL],
    the server is left without [kept], the [DEL] of [ghost] finds nothing and
    its error is the outcome. *)
Lemma deleteAll_spec_witness :
  call (CmdKeys "*") (c_keys (ElastiCache.client late_cache) "*") kept_only
    = (Fulfilled ["kept"; "ghost"], mkWorld (store kept_only) [CmdKeys "*"] [])
  /\ issued (snd (ElastiCache.deleteAll late_cache None kept_only))
     = [CmdKeys "*"; CmdDel "kept"; CmdDel "ghost"]
  /\ store (snd (ElastiCache.deleteAll late_cache None kept_only))
     = purged (ElastiCache.client late_cache) ["kept"; "ghost"]
         (store kept_only)
  /\ purged (ElastiCache.client late_cache) ["kept"; "ghost"] (store kept_only)
     = MemRedis.empty
  /\ exists err,
       first_rejection [Fulfilled tt; Rejected (NotFound "Key not found")] err
       /\ fst (ElastiCache.deleteAll late_cache None kept_only) = Rejected err.
Proof.
  assert (call (CmdKeys "*") (c_keys (ElastiCache.client late_cache) "*")
               kept_only
          = (Fulfilled ["kept"; "ghost"],
             mkWorld (store kept_only) [CmdKeys "*"] [])) as Hkeys
    by (vm_compute; reflexivity).
  split; [exact Hkeys |].
  destruct (deleteAll_spec late_cache None ["kept"; "ghost"] kept_only _ Hkeys)
    as [_ Hsome].
  destruct (Hsome ltac:(discriminate)) as (Hsent & Hstore & Hjoin).
  split; [exact Hsent |]. split; [exact Hstore |].
  split; [vm_compute; reflexivity |].
  destruct (Hjoin [Fulfilled tt; Rejected (NotFound "Key not found")]
              (mkWorld (MemRedis.mkStore true ∅ ∅)
                 [CmdKeys "*"; CmdDel "kept"; CmdDel "ghost"] []))
    as (_ & _ & Hfail); [vm_compute; reflexivity |].
  apply (Hfail (NotFound "Key not found")). right. left. reflexivity.
Defined.

(** [getByPrefix] with a listing that is out of date: the [get] of [ghost]
    raises the error the composite rejects with. *)
Lemma composite_forwards_classified_error_witness :
  member_raises late_cache (GetByPrefix "users") kept_only
    (HttpErr (mkHttpError "Key not found" 404 None))
  /\ composite_rejection late_cache (GetByPrefix "users") kept_only
     = Some (HttpErr (mkHttpError "Key not found" 404 None)).
Proof.
  assert (member_raises late_cache (GetByPrefix "users") kept_only
            (HttpErr (mkHttpError "Key not found" 404 None))) as Hraise.
  { apply (raises_in_getByPrefix late_cache "users" kept_only
             ["kept"; "ghost"]
             (mkWorld (store kept_only) [CmdKeys "users:*"] [])
             [Fulfilled (VNum 7); Rejected (NotFound "Key not found")]
             (mkWorld (store kept_only)
                [CmdKeys "users:*"; CmdGet "kept"; CmdGet "ghost"] []));
      [vm_compute; reflexivity | discriminate | vm_compute; reflexivity |].
    exists [VNum 7], []. reflexivity. }
  split; [exact Hraise |].
  apply (composite_forwards_classified_error late_cache _ _ _ Hraise).
Defined.

End OnMemRedis.

(** * More of the facade *)

(** ** The outcome of a primitive operation, read off the reply *)

(** Runs a method body to its outcome, by cases on what it branches on. *)
Ltac settle :=
  repeat first
    [ progress cbn
    | match goal with
      | |- context [if ElastiCache.dev ?t then _ else _] =>
          destruct (ElastiCache.dev t)
      | |- context [match JSON_parse ?t with _ => _ end] =>
          destruct (JSON_parse t)
      | |- context [if default false ?p then _ else _] =>
          destruct (default false p)
      | |- context [if ?z =? 0 then _ else _] => destruct (z =? 0)
      | |- context [match ?a with Some _ => _ | None => _ end] =>
          is_var a; destruct a
      end ].

(** The outcomes of a client call: a reply, or an error of the client. *)
Ltac by_reply w :=
  let Hcall := fresh "Hcall" in
  destruct (call _ _ w) as [[? | [? | ?]] ?] eqn:Hcall;
  [| apply call_rejects_native in Hcall; discriminate Hcall |].

Section Outcomes.
Context {S : Type} {codec : Codec} (this : ElastiCache.t S).

(** X1: The reads that test the reply for [null]: [null] is classified
    [NotFound]; a text is returned as it is, or decoded when [parse] is set,
    and a text that does not decode is a [StoreFailure], as is a failure of
    the client. *)
Theorem null_sensitive_reads (w : World S) :
  (forall key parse,
     fst (ElastiCache.get this key parse w)
     = match fst (call (CmdGet key) (c_get (ElastiCache.client this) key) w) with
       | Fulfilled None => Rejected (NotFound "Key not found")
       | Fulfilled (Some text) =>
           if default false parse then
             match JSON_parse text with
             | inr v => Fulfilled v
             | inl _ => Rejected (StoreFailure "Error fetching from Redis")
             end
           else Fulfilled (VStr text)
       | Rejected _ => Rejected (StoreFailure "Error fetching from Redis")
       end)
  /\ (forall key parse,
        fst (ElastiCache.listPop this key parse w)
        = match fst (call (CmdRPop key)
                          (c_rPop (ElastiCache.client this) key) w) with
          | Fulfilled None => Rejected (NotFound "List is empty")
          | Fulfilled (Some text) =>
              if default false parse then
                match JSON_parse text with
                | inr v => Fulfilled v
                | inl _ => Rejected (StoreFailure "Error popping from Redis list")
                end
              else Fulfilled (VStr text)
          | Rejected _ => Rejected (StoreFailure "Error popping from Redis list")
          end)
  /\ (forall key field parse,
        fst (ElastiCache.hashGet this key field parse w)
        = match fst (call (CmdHGet key field)
                          (c_hGet (ElastiCache.client this) key field) w) with
          | Fulfilled None => Rejected (NotFound "Field not found")
          | Fulfilled (Some text) =>
              if default false parse then
                match JSON_parse text with
                | inr v => Fulfilled v
                | inl _ => Rejected (StoreFailure "Error fetching from Redis hash")
                end
              else Fulfilled (VStr text)
          | Rejected _ => Rejected (StoreFailure "Error fetching from Redis hash")
          end).
Proof.
  repeat split; intros;
    unfold ElastiCache.get, ElastiCache.listPop, ElastiCache.hashGet,
      ElastiCache.JSON_parse_or_throw; unfold_async;
    by_reply w; settle; reflexivity.
Qed.

(** X2: The writes that test the reply for zero: a count of zero is
    classified [NotFound], any other count resolves, a failure of the client
    is a [StoreFailure], and so is a value of [listRemove] that
    [JSON.stringify] throws on. *)
Theorem count_sensitive_writes (w : World S) :
  (forall key,
     fst (ElastiCache.delete this key w)
     = match fst (call (CmdDel key) (c_del (ElastiCache.client this) key) w) with
       | Fulfilled n =>
           if n =? 0 then Rejected (NotFound "Key not found") else Fulfilled tt
       | Rejected _ => Rejected (StoreFailure "Error deleting from Redis")
       end)
  /\ (forall key value,
        fst (ElastiCache.listRemove this key value w)
        = match JSON_stringify value with
          | inr text =>
              match fst (call (CmdLRem key 0 text)
                              (c_lRem (ElastiCache.client this) key 0 text)
                              w) with
              | Fulfilled n =>
                  if n =? 0 then Rejected (NotFound "Value not found in list")
                  else Fulfilled tt
              | Rejected _ =>
                  Rejected (StoreFailure "Error removing from Redis list")
              end
          | inl _ => Rejected (StoreFailure "Error removing from Redis list")
          end)
  /\ (forall key field,
        fst (ElastiCache.hashDelete this key field w)
        = match fst (call (CmdHDel key field)
                          (c_hDel (ElastiCache.client this) key field) w) with
          | Fulfilled n =>
              if n =? 0 then Rejected (NotFound "Field not found")
              else Fulfilled tt
          | Rejected _ => Rejected (StoreFailure "Error deleting from Redis hash")
          end).
Proof.
  repeat split; intros;
    unfold ElastiCache.delete, ElastiCache.listRemove, ElastiCache.hashDelete,
      ElastiCache.JSON_stringify_or_throw;
    unfold_async;
    try (destruct (JSON_stringify value); [settle; reflexivity |]);
    by_reply w; settle; reflexivity.
Qed.

(** X3: The writes that ignore the reply: they resolve when the client does,
    and whatever the client or [JSON.stringify] throws becomes the
    [StoreFailure] of the method. *)
Theorem plain_writes (w : World S) :
  (forall key value ttl,
     fst (ElastiCache.set this key value ttl w)
     = match JSON_stringify value with
       | inr text =>
           match fst (call (CmdSet key text (ElastiCache.set_options ttl))
                           (c_set (ElastiCache.client this) key text
                                  (ElastiCache.set_options ttl)) w) with
           | Fulfilled _ => Fulfilled tt
           | Rejected _ => Rejected (StoreFailure "Error saving to Redis")
           end
       | inl _ => Rejected (StoreFailure "Error saving to Redis")
       end)
  /\ (forall key value,
        fst (ElastiCache.listPush this key value w)
        = match JSON_stringify value with
          | inr text =>
              match fst (call (CmdRPush key text)
                              (c_rPush (ElastiCache.client this) key text)
                              w) with
              | Fulfilled _ => Fulfilled tt
              | Rejected _ =>
                  Rejected (StoreFailure "Error pushing to Redis list")
              end
          | inl _ => Rejected (StoreFailure "Error pushing to Redis list")
          end)
  /\ (forall key field value,
        fst (ElastiCache.hashSet this key field value w)
        = match JSON_stringify value with
          | inr text =>
              match fst (call (CmdHSet key field text)
                              (c_hSet (ElastiCache.client this) key field text)
                              w) with
              | Fulfilled _ => Fulfilled tt
              | Rejected _ =>
                  Rejected (StoreFailure "Error saving to Redis hash")
              end
          | inl _ => Rejected (StoreFailure "Error saving to Redis hash")
          end).
Proof.
  repeat split; intros;
    unfold ElastiCache.set, ElastiCache.listPush, ElastiCache.hashSet,
      ElastiCache.JSON_stringify_or_throw;
    unfold_async;
    (destruct (JSON_stringify value); [settle; reflexivity |]);
    by_reply w; settle; reflexivity.
Qed.

End Outcomes.

(** ** Footprints *)

Section Footprints.
Context {S : Type}.

Lemma sends_ret {A} (a : A) : sends (S:=S) [] (ret a).
Proof. intros w. cbn. now rewrite app_nil_r. Qed.

Lemma sends_throw {A} (err : Thrown) : sends (S:=S) (A:=A) [] (throw err).
Proof. intros w. cbn. now rewrite app_nil_r. Qed.

Lemma sends_console_log (text : string) : sends (S:=S) [] (console_log text).
Proof. intros w. cbn. now rewrite app_nil_r. Qed.

Lemma sends_console_error (text : string) (err : Thrown) :
  sends (S:=S) [] (console_error text err).
Proof. intros w. cbn. now rewrite app_nil_r. Qed.

Lemma sends_when (cond : bool) (stmt : Async S unit) :
  sends [] stmt -> sends [] (when cond stmt).
Proof. destruct cond; [trivial | intros _; apply sends_ret]. Qed.

Lemma sends_call {A} (cmd : Command) (reply : Reply S A) :
  sends [cmd] (call cmd reply).
Proof. intros w. apply call_issued. Qed.

(** What follows a computation without sending anything adds nothing. *)
Lemma sends_bind {A B} (cmds : list Command) (m : Async S A)
  (k : A -> Async S B) :
  sends cmds m -> (forall a, sends [] (k a)) -> sends cmds (bind m k).
Proof.
  intros Hm Hk w. unfold bind. specialize (Hm w).
  destruct (m w) as [[a | err] w1]; cbn [snd] in *; [| exact Hm].
  rewrite (Hk a w1), app_nil_r. exact Hm.
Qed.

(** An argument that is evaluated before the call: its value goes on, and
    what it throws ends the computation. *)
Lemma sends_bind_ret {A B} (cmds : list Command) (a : A)
  (k : A -> Async S B) :
  sends cmds (k a) -> sends cmds (bind (ret a) k).
Proof. intros Hk w. exact (Hk w). Qed.

Lemma sends_bind_throw {A B} (err : Thrown) (k : A -> Async S B) :
  sends [] (bind (throw err) k).
Proof. intros w. cbn. now rewrite app_nil_r. Qed.

Lemma sends_try_catch {A} (cmds : list Command) (body : Async S A)
  (handler : Thrown -> Async S A) :
  sends cmds body -> (forall err, sends [] (handler err)) ->
  sends cmds (try_catch body handler).
Proof.
  intros Hbody Hhandler w. unfold try_catch. specialize (Hbody w).
  destruct (body w) as [[a | err] w1]; cbn [snd] in *; [exact Hbody |].
  rewrite (Hhandler err w1), app_nil_r. exact Hbody.
Qed.

Lemma sends_map_throwing {A B} (f : A -> Async S B) (l : list A) :
  (forall x, sends [] (f x)) -> sends [] (map_throwing f l).
Proof.
  intros Hf. induction l as [| x l IH]; cbn [map_throwing].
  - apply sends_ret.
  - apply sends_bind; [apply Hf |]. intros y.
    apply sends_bind; [exact IH |]. intros ys. apply sends_ret.
Qed.

Lemma silent_ret {A} (a : A) : silent (S:=S) (ret a).
Proof. intros w. reflexivity. Qed.

Lemma silent_throw {A} (err : Thrown) : silent (S:=S) (A:=A) (throw err).
Proof. intros w. reflexivity. Qed.

Lemma silent_call {A} (cmd : Command) (reply : Reply S A) :
  silent (call cmd reply).
Proof.
  intros w. unfold call. destruct (reply (store w)) as [[e | a] s']; reflexivity.
Qed.

Lemma silent_bind {A B} (m : Async S A) (k : A -> Async S B) :
  silent m -> (forall a, silent (k a)) -> silent (bind m k).
Proof.
  intros Hm Hk w. unfold bind. specialize (Hm w).
  destruct (m w) as [[a | err] w1]; cbn [snd] in *; [| exact Hm].
  now rewrite (Hk a w1).
Qed.

Lemma silent_try_catch {A} (body : Async S A) (handler : Thrown -> Async S A) :
  silent body -> (forall err, silent (handler err)) ->
  silent (try_catch body handler).
Proof.
  intros Hbody Hhandler w. unfold try_catch. specialize (Hbody w).
  destruct (body w) as [[a | err] w1]; cbn [snd] in *; [exact Hbody |].
  now rewrite (Hhandler err w1).
Qed.

Lemma silent_map_throwing {A B} (f : A -> Async S B) (l : list A) :
  (forall x, silent (f x)) -> silent (map_throwing f l).
Proof.
  intros Hf. induction l as [| x l IH]; cbn [map_throwing].
  - apply silent_ret.
  - apply silent_bind; [apply Hf |]. intros y.
    apply silent_bind; [exact IH |]. intros ys. apply silent_ret.
Qed.

Lemma silent_Promise_all {A} (ps : list (Async S A)) :
  Forall silent ps -> silent (Promise_all ps).
Proof.
  intros Hall w. unfold Promise_all.
  assert (console (snd (settle_all ps w)) = console w) as Hsettle.
  { revert w. induction Hall as [| p ps Hp _ IH]; intros w; [reflexivity |].
    cbn [settle_all]. specialize (Hp w). destruct (p w) as [r w1].
    specialize (IH w1). destruct (settle_all ps w1) as [rs w2].
    cbn [snd] in *. congruence. }
  destruct (settle_all ps w) as [rs w']. exact Hsettle.
Qed.

Lemma same_store_refl (w : World S) : same_store w w.
Proof. split; reflexivity. Qed.

Lemma agree_ret {A} (a : A) : agree (S:=S) (ret a) (ret a).
Proof. intros w w' Hsame. split; [reflexivity | exact Hsame]. Qed.

Lemma agree_throw {A} (err : Thrown) :
  agree (S:=S) (A:=A) (throw err) (throw err).
Proof. intros w w' Hsame. split; [reflexivity | exact Hsame]. Qed.

Lemma agree_call {A} (cmd : Command) (reply : Reply S A) :
  agree (call cmd reply) (call cmd reply).
Proof.
  intros w w' [Hstore Hissued]. unfold call. rewrite <- Hstore.
  destruct (reply (store w)) as [[e | a] s']; cbn; rewrite Hissued;
    repeat split; reflexivity.
Qed.

(** Lines of the console, written or not, make no difference. *)
Lemma agree_log (on on' : bool) (text : string) :
  agree (S:=S) (when on (console_log text)) (when on' (console_log text)).
Proof.
  intros w w' Hsame. destruct on, on'; cbn; split; trivial; exact Hsame.
Qed.

Lemma agree_log_error (on on' : bool) (text : string) (err : Thrown) :
  agree (S:=S) (when on (console_error text err))
        (when on' (console_error text err)).
Proof.
  intros w w' Hsame. destruct on, on'; cbn; split; trivial; exact Hsame.
Qed.

Lemma agree_bind {A B} (m m' : Async S A) (k k' : A -> Async S B) :
  agree m m' -> (forall a, agree (k a) (k' a)) -> agree (bind m k) (bind m' k').
Proof.
  intros Hm Hk w w' Hsame. unfold bind. destruct (Hm w w' Hsame) as [Hfst Hsnd].
  destruct (m w) as [[a | err] w1], (m' w') as [[a' | err'] w1'];
    cbn [fst snd] in *; try discriminate.
  - injection Hfst as <-. apply Hk, Hsnd.
  - injection Hfst as <-. split; [reflexivity | exact Hsnd].
Qed.

Lemma agree_try_catch {A} (body body' : Async S A)
  (handler handler' : Thrown -> Async S A) :
  agree body body' -> (forall err, agree (handler err) (handler' err)) ->
  agree (try_catch body handler) (try_catch body' handler').
Proof.
  intros Hbody Hhandler w w' Hsame. unfold try_catch.
  destruct (Hbody w w' Hsame) as [Hfst Hsnd].
  destruct (body w) as [[a | err] w1], (body' w') as [[a' | err'] w1'];
    cbn [fst snd] in *; try discriminate.
  - injection Hfst as <-. split; [reflexivity | exact Hsnd].
  - injection Hfst as <-. apply Hhandler, Hsnd.
Qed.

Lemma agree_map_throwing {A B} (f f' : A -> Async S B) (l : list A) :
  (forall x, agree (f x) (f' x)) -> agree (map_throwing f l) (map_throwing f' l).
Proof.
  intros Hf. induction l as [| x l IH]; cbn [map_throwing].
  - apply agree_ret.
  - apply agree_bind; [apply Hf |]. intros y.
    apply agree_bind; [exact IH |]. intros ys. apply agree_ret.
Qed.

Lemma agree_Promise_all {A K} (f f' : K -> Async S A) (keys : list K) :
  (forall key, agree (f key) (f' key)) ->
  agree (Promise_all (f <$> keys)) (Promise_all (f' <$> keys)).
Proof.
  intros Hf w w' Hsame. unfold Promise_all.
  assert (fst (settle_all (f <$> keys) w) = fst (settle_all (f' <$> keys) w')
          /\ same_store (snd (settle_all (f <$> keys) w))
                        (snd (settle_all (f' <$> keys) w'))) as [Hrs Hw].
  { revert w w' Hsame. induction keys as [| key keys IH]; intros w w' Hsame.
    - split; [reflexivity | exact Hsame].
    - cbn [fmap list_fmap settle_all].
      destruct (Hf key w w' Hsame) as [Hfst Hsnd].
      destruct (f key w) as [r w1], (f' key w') as [r' w1'].
      cbn [fst snd] in *. subst r'.
      specialize (IH w1 w1' Hsnd). cbn [fmap] in IH.
      destruct (settle_all _ w1) as [rs w2], (settle_all _ w1') as [rs' w2'].
      cbn [fst snd] in *. destruct IH as [-> IH]. split; [reflexivity | exact IH]. }
  destruct (settle_all _ w) as [rs w1], (settle_all _ w') as [rs' w1'].
  cbn [fst snd] in *. subst rs'. split; [reflexivity | exact Hw].
Qed.

End Footprints.

Section Taxonomy.
Context {S : Type}.

Lemma classified_NotFound (msg : string) : classified (NotFound msg).
Proof. eexists. split; [reflexivity |]. left. reflexivity. Qed.

Lemma classified_StoreFailure (msg : string) : classified (StoreFailure msg).
Proof. eexists. split; [reflexivity |]. right. reflexivity. Qed.

Lemma classified_with_cause (msg : string) (err : Thrown) :
  classified (new_HttpError3 msg 500 err).
Proof. eexists. split; [reflexivity |]. right. reflexivity. Qed.

Lemma classified_instanceof (err : Thrown) :
  classified err -> instanceof_HttpError err = true.
Proof. intros (e & -> & _). reflexivity. Qed.

Lemma classifies_tame {A} (m : Async S A) : classifies m -> tame m.
Proof. intros Hm w err Hrej _. exact (Hm w err Hrej). Qed.

Lemma classifies_ret {A} (a : A) : classifies (S:=S) (ret a).
Proof. intros w err. discriminate. Qed.

Lemma classifies_throw {A} (err : Thrown) :
  classified err -> classifies (S:=S) (A:=A) (throw err).
Proof. intros Herr w err' [= <-]. exact Herr. Qed.

Lemma classifies_console_log (text : string) :
  classifies (S:=S) (console_log text).
Proof. intros w err. discriminate. Qed.

Lemma classifies_console_error (text : string) (err : Thrown) :
  classifies (S:=S) (console_error text err).
Proof. intros w err'. discriminate. Qed.

Lemma classifies_when (cond : bool) (stmt : Async S unit) :
  classifies stmt -> classifies (when cond stmt).
Proof. destruct cond; [trivial | intros _; apply classifies_ret]. Qed.

Lemma classifies_bind {A B} (m : Async S A) (k : A -> Async S B) :
  classifies m -> (forall a, classifies (k a)) -> classifies (bind m k).
Proof.
  intros Hm Hk w err. unfold bind. specialize (Hm w).
  destruct (m w) as [[a | err0] w1]; cbn [fst] in *; [apply Hk | apply Hm].
Qed.

Lemma tame_throw_native {A} (e : NativeError) :
  tame (S:=S) (A:=A) (throw (Native e)).
Proof. intros w err [= <-]. discriminate. Qed.

Lemma tame_call {A} (cmd : Command) (reply : Reply S A) :
  tame (call cmd reply).
Proof.
  intros w err. destruct (call cmd reply w) as [[a | err0] w1] eqn:Hcall;
    [discriminate |].
  intros [= <-] Hinstance. apply call_rejects_native in Hcall. congruence.
Qed.

Lemma tame_bind {A B} (m : Async S A) (k : A -> Async S B) :
  tame m -> (forall a, tame (k a)) -> tame (bind m k).
Proof.
  intros Hm Hk w err. unfold bind. specialize (Hm w).
  destruct (m w) as [[a | err0] w1]; cbn [fst] in *; [apply Hk | apply Hm].
Qed.

Lemma tame_map_throwing {A B} (f : A -> Async S B) (l : list A) :
  (forall x, tame (f x)) -> tame (map_throwing f l).
Proof.
  intros Hf. induction l as [| x l IH]; cbn [map_throwing].
  - apply classifies_tame, classifies_ret.
  - apply tame_bind; [apply Hf |]. intros y.
    apply tame_bind; [exact IH |]. intros ys.
    apply classifies_tame, classifies_ret.
Qed.

(** A rejection of a member is one of a run of the member. *)
Lemma settle_all_rejection {A K} (f : K -> Async S A) (keys : list K)
  (w : World S) (err : Thrown) :
  In (Rejected err) (fst (settle_all (f <$> keys) w)) ->
  exists key w0, In key keys /\ rejection (fst (f key w0)) = Some err.
Proof.
  revert w. induction keys as [| key keys IH]; intros w; [intros [] |].
  cbn [fmap list_fmap settle_all].
  destruct (f key w) as [r w1] eqn:Hrun.
  specialize (IH w1). cbn [fmap] in IH.
  destruct (settle_all _ w1) as [rs w2]. cbn [fst] in *.
  intros [-> | Hin].
  - exists key, w. split; [now left |]. now rewrite Hrun.
  - destruct (IH Hin) as (key' & w0 & Hkey & Hrej).
    exists key', w0. split; [now right | exact Hrej].
Qed.

Lemma classifies_Promise_all {A K} (f : K -> Async S A) (keys : list K) :
  (forall key, classifies (f key)) -> classifies (Promise_all (f <$> keys)).
Proof.
  intros Hf w err. unfold Promise_all.
  pose proof (settle_all_rejection f keys w err) as Hmember.
  destruct (settle_all _ w) as [rs w1]. cbn [fst] in *.
  destruct (join_all rs) as [vs | err0] eqn:Hjoin; [discriminate |].
  intros [= <-].
  destruct Hmember as (key & w0 & _ & Hrej);
    [apply first_rejection_In, join_all_rejected, Hjoin |].
  exact (Hf key w0 err0 Hrej).
Qed.

(** A [catch] clause that classifies what the [try] block left
    unclassified. *)
Lemma classifies_try_catch {A} (body : Async S A)
  (handler : Thrown -> Async S A) :
  tame body ->
  (forall err,
     (instanceof_HttpError err = true -> classified err) ->
     classifies (handler err)) ->
  classifies (try_catch body handler).
Proof.
  intros Hbody Hhandler w err. unfold try_catch. specialize (Hbody w).
  destruct (body w) as [[a | err0] w1]; cbn [fst] in *; [discriminate |].
  apply Hhandler. intros Hinstance. now apply Hbody.
Qed.

End Taxonomy.

(** ** The whole surface *)

Ltac open_method :=
  unfold ElastiCache.connect, ElastiCache.disconnect, ElastiCache.set,
    ElastiCache.get, ElastiCache.delete, ElastiCache.listPush,
    ElastiCache.listPop, ElastiCache.listRemove, ElastiCache.listGet,
    ElastiCache.hashSet, ElastiCache.hashGet, ElastiCache.hashGetAll,
    ElastiCache.hashDelete, ElastiCache.refreshKey,
    ElastiCache.getTimeToLive, ElastiCache.map_entries,
    ElastiCache.JSON_parse_or_throw, ElastiCache.JSON_stringify_or_throw;
  cbv zeta.

Ltac by_cases_of_body tac :=
  repeat first
    [ tac
    | match goal with
      | |- forall _, _ => intro
      | |- _ (if ?b then _ else _) => destruct b
      | |- _ (match ?x with _ => _ end) => destruct x
      | |- _ (if ?b then _ else _) (if ?b then _ else _) => destruct b
      | |- _ (match ?x with _ => _ end) (match ?x with _ => _ end) => destruct x
      end ].

Ltac sends_step :=
  first [ apply sends_call | apply sends_ret | apply sends_throw
        | apply sends_console_log | apply sends_console_error
        | apply sends_when | apply sends_map_throwing
        | apply sends_try_catch | apply sends_bind_ret
        | apply sends_bind_throw | apply sends_bind ].

Ltac silent_step :=
  first [ apply silent_call | apply silent_ret | apply silent_throw
        | apply silent_map_throwing | apply silent_try_catch
        | apply silent_bind ].

Ltac classifies_step :=
  first [ apply classifies_ret | apply classifies_console_log
        | apply classifies_console_error | apply classifies_when
        | apply classifies_throw;
          first [ apply classified_NotFound | apply classified_StoreFailure
                | apply classified_with_cause | assumption ]
        | apply classifies_bind ].

Ltac tame_step :=
  first [ apply tame_call | apply tame_throw_native | apply tame_map_throwing
        | apply tame_bind
        | apply classifies_tame; solve [repeat classifies_step] ].

Ltac agree_step :=
  first [ apply agree_call | apply agree_ret | apply agree_throw
        | apply agree_log | apply agree_log_error | apply agree_map_throwing
        | apply agree_try_catch | apply agree_bind ].

Section SurfaceFacts.
Context {S : Type} {codec : Codec}.

(** X5: Every primitive operation is at most one call of the client:
    whatever the reply and the branch taken, the commands it sends are those
    of [commands_of], which are the one command of the method with its
    arguments, and none when [JSON.stringify] throws on the value of a
    write. *)
Theorem primitive_sends_its_command (this : ElastiCache.t S) (op : Operation)
  (cmds : list Command) :
  commands_of op = Some cmds ->
  sends cmds (invoke this op) /\ (length cmds <= 1)%nat.
Proof.
  intros Hop. split.
  - revert Hop.
    destruct op; cbn [commands_of]; unfold with_text; intros [= <-];
      cbn [invoke]; unfold void; open_method;
      try match goal with
          | |- context [JSON_stringify ?v] => destruct (JSON_stringify v)
          end;
      by_cases_of_body sends_step.
  - destruct op; cbn [commands_of] in Hop; unfold with_text in Hop;
      injection Hop as <- || discriminate Hop;
      try (cbn; lia); destruct (JSON_stringify value); cbn; lia.
Qed.

(** *** With logging off nothing is written *)

Section Silent.
Context (this : ElastiCache.t S) (Hoff : ElastiCache.dev this = false).

Ltac silence :=
  open_method; rewrite ?Hoff; cbn [when]; by_cases_of_body silent_step.

Lemma silent_get (key : string) (parse : option bool) :
  silent (ElastiCache.get this key parse).
Proof. silence. Qed.

Lemma silent_delete (key : string) : silent (ElastiCache.delete this key).
Proof. silence. Qed.

Lemma silent_listGet (key : string) (start stop : option Z)
  (parse : option bool) :
  silent (ElastiCache.listGet this key start stop parse).
Proof. silence. Qed.

Lemma silent_hashGetAll (key : string) (parse : option bool) :
  silent (ElastiCache.hashGetAll this key parse).
Proof. silence. Qed.

Lemma silent_Promise_all_map {A K} (f : K -> Async S A) (keys : list K) :
  (forall key, silent (f key)) -> silent (Promise_all (f <$> keys)).
Proof.
  intros Hf. apply silent_Promise_all.
  induction keys as [| key keys IH]; constructor; [apply Hf | exact IH].
Qed.

Lemma silent_getAll_loop (keys : list string) (values : list JsValue) :
  silent (ElastiCache.getAll_loop this keys values).
Proof.
  revert values. induction keys as [| key keys IH]; intros values;
    cbn [ElastiCache.getAll_loop]; [apply silent_ret |].
  apply silent_bind; [apply silent_call |]. intros type.
  repeat match goal with
         | |- silent (if ?b then _ else _) => destruct b
         end;
    try apply IH;
    (apply silent_bind;
     [first [apply silent_get | apply silent_listGet | apply silent_hashGetAll]
     | intros v; apply IH]).
Qed.

(** X7: With [dev] off no method writes to the console, whatever happens. *)
Theorem logging_off_is_silent (op : Operation) : silent (invoke this op).
Proof.
  destruct op; cbn [invoke]; unfold void;
    try (silence; fail).
  - unfold ElastiCache.getByPrefix. rewrite Hoff. cbn [when].
    by_cases_of_body ltac:(first [ apply silent_Promise_all_map; intro; apply silent_get
                                 | silent_step ]).
  - unfold ElastiCache.getAll. rewrite Hoff. cbn [when].
    by_cases_of_body ltac:(first [ apply silent_getAll_loop | silent_step ]).
  - unfold ElastiCache.deleteAll. cbv zeta. rewrite Hoff. cbn [when].
    by_cases_of_body ltac:(first [ apply silent_Promise_all_map; intro;
                                   apply silent_delete
                                 | silent_step ]).
Qed.

End Silent.

(** *** Every rejection is classified *)

Section Classified.
Context (this : ElastiCache.t S).

Ltac classify :=
  open_method;
  repeat first
    [ apply classifies_bind; [| intro; apply classifies_ret]
    | apply classifies_try_catch;
      [ by_cases_of_body tame_step
      | let err := fresh "err" in
        let Herr := fresh "Herr" in
        intros err Herr;
        repeat first
          [ match goal with
            | |- forall _, _ => intro
            | |- classifies (if instanceof_HttpError ?e then _ else _) =>
                destruct (instanceof_HttpError e);
                [apply classifies_throw, Herr; reflexivity |]
            end
          | classifies_step ] ] ].

Lemma classifies_get (key : string) (parse : option bool) :
  classifies (ElastiCache.get this key parse).
Proof. classify. Qed.

Lemma classifies_delete (key : string) :
  classifies (ElastiCache.delete this key).
Proof. classify. Qed.

Lemma classifies_listGet (key : string) (start stop : option Z)
  (parse : option bool) :
  classifies (ElastiCache.listGet this key start stop parse).
Proof. classify. Qed.

Lemma classifies_hashGetAll (key : string) (parse : option bool) :
  classifies (ElastiCache.hashGetAll this key parse).
Proof. classify. Qed.

Lemma tame_getAll_loop (keys : list string) (values : list JsValue) :
  tame (ElastiCache.getAll_loop this keys values).
Proof.
  revert values. induction keys as [| key keys IH]; intros values;
    cbn [ElastiCache.getAll_loop]; [apply classifies_tame, classifies_ret |].
  apply tame_bind; [apply tame_call |]. intros type.
  repeat match goal with
         | |- tame (if ?b then _ else _) => destruct b
         end;
    try apply IH;
    (apply tame_bind;
     [apply classifies_tame;
      first [apply classifies_get | apply classifies_listGet
            | apply classifies_hashGetAll]
     | intros v; apply IH]).
Qed.

(** X6: No method lets an error out unclassified: every rejection is an
    [HttpError] of status 404 or 500. *)
Theorem every_rejection_is_classified (op : Operation) :
  classifies (invoke this op).
Proof.
  destruct op; cbn [invoke]; unfold void; try (classify; fail).
  - unfold ElastiCache.getByPrefix.
    apply classifies_try_catch.
    + by_cases_of_body
        ltac:(first [ apply classifies_tame, classifies_Promise_all;
                      intro; apply classifies_get
                    | tame_step ]).
    + intros err Herr. apply classifies_bind; [classifies_step; classifies_step |].
      intros _. destruct (instanceof_HttpError err);
        [apply classifies_throw, Herr; reflexivity | classifies_step].
  - unfold ElastiCache.getAll.
    apply classifies_try_catch.
    + by_cases_of_body ltac:(first [ apply tame_getAll_loop | tame_step ]).
    + intros err Herr. apply classifies_bind; [classifies_step; classifies_step |].
      intros _. destruct (instanceof_HttpError err);
        [apply classifies_throw, Herr; reflexivity | classifies_step].
  - unfold ElastiCache.deleteAll. cbv zeta.
    apply classifies_bind; [| intro; apply classifies_ret].
    apply classifies_try_catch.
    + by_cases_of_body
        ltac:(first [ apply classifies_tame, classifies_Promise_all;
                      intro; apply classifies_delete
                    | tame_step ]).
    + intros err Herr. apply classifies_bind; [classifies_step; classifies_step |].
      intros _. destruct (instanceof_HttpError err);
        [apply classifies_throw, Herr; reflexivity | classifies_step].
Qed.

End Classified.

(** *** Logging and outcomes *)

Section Logging.
Context (cl : RedisClient S) (on on' : bool).

Ltac compare :=
  open_method; cbn [ElastiCache.client ElastiCache.dev];
  by_cases_of_body agree_step.

Lemma agree_get (key : string) (parse : option bool) :
  agree (ElastiCache.get (ElastiCache.new cl on) key parse)
        (ElastiCache.get (ElastiCache.new cl on') key parse).
Proof. compare. Qed.

Lemma agree_delete (key : string) :
  agree (ElastiCache.delete (ElastiCache.new cl on) key)
        (ElastiCache.delete (ElastiCache.new cl on') key).
Proof. compare. Qed.

(** X8: Apart from [hashGetAll], and [getAll] which calls it, no method lets
    the [dev] flag decide anything but the console: two facades on one client
    give the same outcome, send the same commands and leave the same store. *)
Theorem logging_changes_no_outcome (op : Operation) :
  reads_whole_hash op = false ->
  agree (invoke (ElastiCache.new cl on) op) (invoke (ElastiCache.new cl on') op).
Proof.
  destruct op; cbn [reads_whole_hash]; intros Hop; try discriminate Hop;
    cbn [invoke]; unfold void; try (compare; fail).
  - unfold ElastiCache.getByPrefix. cbn [ElastiCache.client ElastiCache.dev].
    by_cases_of_body
      ltac:(first [ apply agree_Promise_all; intro; apply agree_get
                  | agree_step ]).
  - unfold ElastiCache.deleteAll. cbv zeta.
    cbn [ElastiCache.client ElastiCache.dev].
    by_cases_of_body
      ltac:(first [ apply agree_Promise_all; intro; apply agree_delete
                  | agree_step ]).
Qed.

End Logging.

End SurfaceFacts.

(** ** More outcomes *)

Section MoreOutcomes.
Context {S : Type} {codec : Codec} (this : ElastiCache.t S).

(** X4: A failed [connect] carries the error of the client as its cause; a
    failed [disconnect] does not. *)
Theorem connection_failures (w : World S) :
  fst (ElastiCache.connect this w)
  = match fst (call CmdConnect (c_connect (ElastiCache.client this)) w) with
    | Fulfilled _ => Fulfilled tt
    | Rejected err =>
        Rejected (HttpErr (mkHttpError "Redis connection failed" 500 (Some err)))
    end
  /\ fst (ElastiCache.disconnect this w)
     = match fst (call CmdDisconnect
                       (c_disconnect (ElastiCache.client this)) w) with
       | Fulfilled _ => Fulfilled tt
       | Rejected _ =>
           Rejected (HttpErr (mkHttpError "Redis disconnection failed" 500 None))
       end.
Proof.
  split; unfold ElastiCache.connect, ElastiCache.disconnect; unfold_async;
    by_reply w; settle; reflexivity.
Qed.

(** X11: [set] asks for an expiry exactly when [ttl] is neither [null] nor
    zero, and then with [ttl] as it is, a negative one included; the command
    carries what [JSON.stringify] returned, and none is sent when it
    throws. *)
Theorem set_expiry (key : string) (value : JsValue) (ttl : option Z)
  (w : World S) :
  exists ex,
    issued (snd (ElastiCache.set this key value ttl w))
      = (issued w ++ match JSON_stringify value with
                     | inr text => [CmdSet key text ex]
                     | inl _ => []
                     end)%list
    /\ (ex = None <-> ttl = None \/ ttl = Some 0)
    /\ (forall seconds, ex = Some seconds -> ttl = Some seconds).
Proof.
  exists (ElastiCache.set_options ttl). split; [| split].
  - assert (sends (match JSON_stringify value with
                   | inr text => [CmdSet key text (ElastiCache.set_options ttl)]
                   | inl _ => []
                   end)
                  (ElastiCache.set this key value ttl)) as Hsends
      by (open_method; destruct (JSON_stringify value);
          by_cases_of_body sends_step).
    apply Hsends.
  - unfold ElastiCache.set_options. destruct ttl as [seconds |].
    + destruct (Z.eqb_spec seconds 0) as [-> | Hne].
      * split; auto.
      * split; [discriminate |]. intros [[=] | [= ->]]. congruence.
    + split; auto.
  - unfold ElastiCache.set_options. intros seconds.
    destruct ttl as [n |]; [| discriminate].
    destruct (n =? 0); [discriminate | auto].
Qed.

(** X20: A value that [JSON.stringify] throws on never reaches the client:
    [set], [listPush], [listRemove] and [hashSet] reject with their own
    [StoreFailure], send no command and leave the store as it was. *)
Theorem unserializable_value_is_not_sent (value : JsValue) (e : NativeError)
  (w : World S) :
  JSON_stringify value = inl e ->
  (forall key ttl,
     fst (ElastiCache.set this key value ttl w)
       = Rejected (StoreFailure "Error saving to Redis")
     /\ same_store (snd (ElastiCache.set this key value ttl w)) w)
  /\ (forall key,
        fst (ElastiCache.listPush this key value w)
          = Rejected (StoreFailure "Error pushing to Redis list")
        /\ same_store (snd (ElastiCache.listPush this key value w)) w)
  /\ (forall key,
        fst (ElastiCache.listRemove this key value w)
          = Rejected (StoreFailure "Error removing from Redis list")
        /\ same_store (snd (ElastiCache.listRemove this key value w)) w)
  /\ (forall key field,
        fst (ElastiCache.hashSet this key field value w)
          = Rejected (StoreFailure "Error saving to Redis hash")
        /\ same_store (snd (ElastiCache.hashSet this key field value w)) w).
Proof.
  intros Hthrows. repeat split;
    unfold ElastiCache.set, ElastiCache.listPush, ElastiCache.listRemove,
      ElastiCache.hashSet, ElastiCache.JSON_stringify_or_throw;
    rewrite Hthrows; unfold_async; destruct (ElastiCache.dev this);
    reflexivity.
Qed.

(** X12: Whatever happens in [listGet], what it rejects with is its own
    [StoreFailure]: an empty list and a failed read have the same error. *)
Theorem listGet_rejects_with_StoreFailure_only (key : string)
  (start stop : option Z) (parse : option bool) (w : World S) (err : Thrown) :
  rejection (fst (ElastiCache.listGet this key start stop parse w)) = Some err ->
  err = StoreFailure "Error fetching from Redis list".
Proof.
  unfold ElastiCache.listGet. cbv zeta. unfold try_catch.
  match goal with |- context [let (_, _) := ?body w in _] =>
    destruct (body w) as [[v | thrown] w1] end; [discriminate |].
  unfold_async. destruct (ElastiCache.dev this); cbn; intros [= <-]; reflexivity.
Qed.

(** X13: [refreshKey] by the reply of [expire]: zero is the one reply it
    rejects on; any other count, and any failure of the client, resolves. *)
Theorem refreshKey_outcome (key : string) (ttl : Z) (w : World S) :
  fst (ElastiCache.refreshKey this key ttl w)
  = match fst (call (CmdExpire key ttl)
                    (c_expire (ElastiCache.client this) key ttl) w) with
    | Fulfilled n =>
        if n =? 0 then Rejected (NotFound "Key not found") else Fulfilled tt
    | Rejected _ => Fulfilled tt
    end.
Proof.
  unfold ElastiCache.refreshKey; unfold_async; by_reply w; settle; reflexivity.
Qed.

(** *** [hashGetAll] on an object *)

Lemma map_entries_decodes (props : list (string * string))
  (parsed : list (string * JsValue)) (w : World S) :
  decodes_to props parsed ->
  ElastiCache.map_entries (ElastiCache.JSON_parse_or_throw (S:=S)) props w
    = (Fulfilled parsed, w).
Proof.
  unfold ElastiCache.map_entries.
  induction 1 as [| [k t] [k' v] props parsed [Hk Hv] _ IH]; [reflexivity |].
  cbn [fst snd] in Hk, Hv. subst k'.
  cbn [map_throwing]. unfold bind at 1. unfold bind at 1.
  unfold ElastiCache.JSON_parse_or_throw at 1. rewrite Hv.
  unfold ret at 1. unfold ret at 1. unfold bind at 1. rewrite IH. reflexivity.
Qed.

Lemma map_entries_malformed (props : list (string * string)) (w : World S) :
  Exists (fun kv => exists e, JSON_parse (snd kv) = inl e) props ->
  exists e, ElastiCache.map_entries (ElastiCache.JSON_parse_or_throw (S:=S))
              props w = (Rejected (Native e), w).
Proof.
  unfold ElastiCache.map_entries.
  induction 1 as [[k t] props (e & He) | [k t] props _ (e & IH)];
    cbn [map_throwing]; unfold bind at 1; unfold bind at 1;
    unfold ElastiCache.JSON_parse_or_throw at 1; cbn [snd] in *.
  - rewrite He. eexists. reflexivity.
  - destruct (JSON_parse t) as [e0 | v]; [eexists; reflexivity |].
    unfold ret at 1. unfold ret at 1. unfold bind at 1. rewrite IH.
    eexists. reflexivity.
Qed.

(** X10: On a reply that is an object, [hashGetAll] returns its fields in
    their order: as texts when [parse] is off, decoded one by one when it is
    on; one field that does not decode fails the whole read as a
    [StoreFailure]. *)
Theorem hashGetAll_object (key : string) (props : list (string * string))
  (w w1 : World S) :
  call (CmdHGetAll key) (c_hGetAll (ElastiCache.client this) key) w
    = (Fulfilled (Some props), w1) ->
  ElastiCache.hashGetAll this key (Some false) w
    = (Fulfilled (VObj (prod_map id VStr <$> props)), w1)
  /\ (forall parsed,
        decodes_to props parsed ->
        ElastiCache.hashGetAll this key (Some true) w
          = (Fulfilled (VObj parsed), w1))
  /\ (Exists (fun kv => exists e, JSON_parse (snd kv) = inl e) props ->
      fst (ElastiCache.hashGetAll this key (Some true) w)
        = Rejected (StoreFailure "Error finding the Redis hash")).
Proof.
  intros Hcall. unfold ElastiCache.hashGetAll.
  change (default false (Some false)) with false.
  change (default false (Some true)) with true. cbv zeta.
  split; [| split].
  - unfold_async. rewrite Hcall. reflexivity.
  - intros parsed Hparsed. unfold_async. rewrite Hcall.
    pose proof (map_entries_decodes props parsed w1 Hparsed) as Hmap.
    cbv beta iota zeta. rewrite Hmap. reflexivity.
  - intros Hbad. unfold_async. rewrite Hcall.
    destruct (map_entries_malformed props w1 Hbad) as (e & Hmap).
    cbv beta iota zeta. rewrite Hmap.
    destruct (ElastiCache.dev this); reflexivity.
Qed.

End MoreOutcomes.

(** ** Failures of the enumeration and of the type inspection *)

Section CompositeFailures.
Context {S : Type} {codec : Codec} (this : ElastiCache.t S).

(** X14: When the key enumeration of a composite operation fails, the
    operation rejects with its own [StoreFailure] and sends nothing after the
    enumeration. *)
Theorem enumeration_failure (op : Operation) (pattern msg : string)
  (w w1 : World S) (err : Thrown) :
  enumeration_of op = Some (pattern, msg) ->
  call (CmdKeys pattern) (c_keys (ElastiCache.client this) pattern) w
    = (Rejected err, w1) ->
  fst (invoke this op w) = Rejected (StoreFailure msg)
  /\ issued (snd (invoke this op w)) = (issued w ++ [CmdKeys pattern])%list.
Proof.
  intros Hop Hcall.
  pose proof (call_issued (CmdKeys pattern)
                (c_keys (ElastiCache.client this) pattern) w) as Hsent.
  rewrite Hcall in Hsent. cbn [snd] in Hsent.
  pose proof (call_rejects_native _ _ _ _ _ Hcall) as Hnative.
  destruct err as [e | e]; [discriminate |].
  destruct op; cbn [enumeration_of] in Hop; try discriminate Hop;
    injection Hop as <- <-; cbn [invoke]; unfold void;
    unfold ElastiCache.getByPrefix, ElastiCache.getAll, ElastiCache.deleteAll;
    cbv zeta; unfold_async; rewrite Hcall;
    destruct (ElastiCache.dev this); cbn; split; (reflexivity || exact Hsent).
Qed.

(** X15: When the type of a key cannot be inspected, [getAll] rejects with its
    own [StoreFailure]: the records read so far are not returned. *)
Theorem getAll_type_failure (keys done rest types : list string) (key : string)
  (records : list (string * JsValue)) (w w1 w2 w3 : World S) (err : Thrown) :
  call (CmdKeys "*") (c_keys (ElastiCache.client this) "*") w
    = (Fulfilled keys, w1) ->
  keys = (done ++ key :: rest)%list ->
  Snapshot this w1 done types records w2 ->
  call (CmdType key) (c_type (ElastiCache.client this) key) w2
    = (Rejected err, w3) ->
  fst (ElastiCache.getAll this w)
    = Rejected (StoreFailure "Error fetching all keys from Redis").
Proof.
  intros Hkeys -> Hsnap Htype.
  pose proof (call_rejects_native _ _ _ _ _ Htype) as Hnative.
  destruct err as [e | e]; [discriminate |].
  unfold ElastiCache.getAll. unfold_async. rewrite Hkeys.
  assert ((length (done ++ key :: rest) =? 0)%nat = false) as ->
    by (rewrite length_app; cbn; apply Nat.eqb_neq; lia).
  pose proof (getAll_loop_snapshot this _ _ _ _ _ Hsnap (key :: rest) [])
    as Hloop.
  assert (forall values,
            ElastiCache.getAll_loop this (key :: rest) values w2
            = (Rejected (Native e), w3)) as Hfail
    by (intros values; cbn [ElastiCache.getAll_loop]; unfold bind at 1;
        rewrite Htype; reflexivity).
  rewrite Hfail in Hloop. rewrite Hloop.
  destruct (ElastiCache.dev this); reflexivity.
Qed.

End CompositeFailures.

(** ** Round trips of lists and hashes, and reads after a delete *)

Section RoundTrips.
Context {S : Type} {codec : Codec} (this : ElastiCache.t S).

(** What a fulfilled write or read says of the client. *)
Lemma hashSet_fulfilled_inv (key field : string) (v : JsValue)
  (w w1 : World S) :
  ElastiCache.hashSet this key field v w = (Fulfilled tt, w1) ->
  exists text n,
    JSON_stringify v = inr text
    /\ c_hSet (ElastiCache.client this) key field text (store w)
       = (inr n, store w1).
Proof.
  unfold ElastiCache.hashSet, ElastiCache.JSON_stringify_or_throw.
  unfold_async.
  destruct (JSON_stringify v) as [e | text];
    [destruct (ElastiCache.dev this); cbn; discriminate |].
  destruct (call _ _ w) as [[n | thrown] w2] eqn:Hc.
  - apply call_fulfilled_inv in Hc as (Hreply & _ & _).
    destruct (ElastiCache.dev this); cbn; intros [= <-]; eauto.
  - destruct (ElastiCache.dev this); cbn; discriminate.
Qed.

Lemma listPush_fulfilled_inv (key : string) (v : JsValue) (w w1 : World S) :
  ElastiCache.listPush this key v w = (Fulfilled tt, w1) ->
  exists text n,
    JSON_stringify v = inr text
    /\ c_rPush (ElastiCache.client this) key text (store w)
       = (inr n, store w1).
Proof.
  unfold ElastiCache.listPush, ElastiCache.JSON_stringify_or_throw.
  unfold_async.
  destruct (JSON_stringify v) as [e | text];
    [destruct (ElastiCache.dev this); cbn; discriminate |].
  destruct (call _ _ w) as [[n | thrown] w2] eqn:Hc.
  - apply call_fulfilled_inv in Hc as (Hreply & _ & _).
    destruct (ElastiCache.dev this); cbn; intros [= <-]; eauto.
  - destruct (ElastiCache.dev this); cbn; discriminate.
Qed.

Lemma delete_fulfilled_inv (key : string) (w w1 : World S) :
  ElastiCache.delete this key w = (Fulfilled tt, w1) ->
  exists n, c_del (ElastiCache.client this) key (store w) = (inr n, store w1).
Proof.
  unfold ElastiCache.delete. unfold_async.
  destruct (call _ _ w) as [[n | thrown] w2] eqn:Hc.
  - apply call_fulfilled_inv in Hc as (Hreply & _ & _).
    destruct (n =? 0), (ElastiCache.dev this); cbn;
      intros [= <-] || discriminate; eauto.
  - destruct (ElastiCache.dev this); cbn;
      destruct (instanceof_HttpError thrown); discriminate.
Qed.

Lemma hashGet_parsed_inv (key field : string) (r : JsValue) (w w1 : World S) :
  ElastiCache.hashGet this key field (Some true) w = (Fulfilled r, w1) ->
  exists text,
    c_hGet (ElastiCache.client this) key field (store w)
      = (inr (Some text), store w1)
    /\ JSON_parse text = inr r.
Proof.
  unfold ElastiCache.hashGet, ElastiCache.JSON_parse_or_throw. unfold_async. cbn.
  destruct (call _ _ w) as [[[text |] | thrown] w2] eqn:Hc.
  - apply call_fulfilled_inv in Hc as (Hreply & _ & _).
    destruct (JSON_parse text) as [e | v] eqn:Hparse.
    + destruct (ElastiCache.dev this); cbn; discriminate.
    + intros [= <- <-]. eauto.
  - destruct (ElastiCache.dev this); cbn; discriminate.
  - destruct (ElastiCache.dev this); cbn;
      destruct (instanceof_HttpError thrown); discriminate.
Qed.

Lemma listPop_parsed_inv (key : string) (r : JsValue) (w w1 : World S) :
  ElastiCache.listPop this key (Some true) w = (Fulfilled r, w1) ->
  exists text,
    c_rPop (ElastiCache.client this) key (store w) = (inr (Some text), store w1)
    /\ JSON_parse text = inr r.
Proof.
  unfold ElastiCache.listPop, ElastiCache.JSON_parse_or_throw. unfold_async. cbn.
  destruct (call _ _ w) as [[[text |] | thrown] w2] eqn:Hc.
  - apply call_fulfilled_inv in Hc as (Hreply & _ & _).
    destruct (JSON_parse text) as [e | v] eqn:Hparse.
    + destruct (ElastiCache.dev this); cbn; discriminate.
    + intros [= <- <-]. eauto.
  - destruct (ElastiCache.dev this); cbn; discriminate.
  - destruct (ElastiCache.dev this); cbn;
      destruct (instanceof_HttpError thrown); discriminate.
Qed.

(** X16: A value whose text decodes to itself, set in a field of a hash by a
    successful [hashSet] and read back by a successful [hashGet] with parsing,
    is the value returned. *)
Theorem hashSet_hashGet_round_trip (key field : string) (v r : JsValue)
  (text : string) (w w1 w2 : World S) :
  field_reads_as_set (ElastiCache.client this) ->
  JSON_stringify v = inr (Some text) ->
  JSON_parse text = inr v ->
  ElastiCache.hashSet this key field v w = (Fulfilled tt, w1) ->
  ElastiCache.hashGet this key field (Some true) w1 = (Fulfilled r, w2) ->
  r = v.
Proof.
  intros Hlaw Hprint Hparse Hset Hget.
  apply hashSet_fulfilled_inv in Hset as (text0 & n & Htext0 & Hset).
  rewrite Hprint in Htext0. injection Htext0 as <-.
  apply hashGet_parsed_inv in Hget as (text' & Hread & Hdecode).
  rewrite (Hlaw _ _ _ _ _ _ _ _ Hset Hread) in Hdecode. congruence.
Qed.

(** X17: A value whose text decodes to itself, pushed by a successful
    [listPush] and popped by a successful [listPop] with parsing, is the value
    returned: the list is a stack at its tail. *)
Theorem listPush_listPop_round_trip (key : string) (v r : JsValue)
  (text : string) (w w1 w2 : World S) :
  tail_pops_as_pushed (ElastiCache.client this) ->
  JSON_stringify v = inr (Some text) ->
  JSON_parse text = inr v ->
  ElastiCache.listPush this key v w = (Fulfilled tt, w1) ->
  ElastiCache.listPop this key (Some true) w1 = (Fulfilled r, w2) ->
  r = v.
Proof.
  intros Hlaw Hprint Hparse Hpush Hpop.
  apply listPush_fulfilled_inv in Hpush as (text0 & n & Htext0 & Hpush).
  rewrite Hprint in Htext0. injection Htext0 as <-.
  apply listPop_parsed_inv in Hpop as (text' & Hread & Hdecode).
  rewrite (Hlaw _ _ _ _ _ _ _ Hpush Hread) in Hdecode. congruence.
Qed.

(** [get] by the reply of the client. *)
Lemma get_by_reply (key : string) (parse : option bool) (w : World S) :
  fst (ElastiCache.get this key parse w)
  = match fst (call (CmdGet key) (c_get (ElastiCache.client this) key) w) with
    | Fulfilled None => Rejected (NotFound "Key not found")
    | Fulfilled (Some text) =>
        if default false parse then
          match JSON_parse text with
          | inr v => Fulfilled v
          | inl _ => Rejected (StoreFailure "Error fetching from Redis")
          end
        else Fulfilled (VStr text)
    | Rejected _ => Rejected (StoreFailure "Error fetching from Redis")
    end.
Proof.
  unfold ElastiCache.get, ElastiCache.JSON_parse_or_throw; unfold_async;
    by_reply w; settle; reflexivity.
Qed.

(** X18: After a successful [delete] of a key, a [get] of it that reaches the
    store is classified [NotFound]; no [get] of it resolves. *)
Theorem get_after_delete (key : string) (parse : option bool)
  (w w1 : World S) :
  deleted_reads_null (ElastiCache.client this) ->
  ElastiCache.delete this key w = (Fulfilled tt, w1) ->
  (forall reply w2,
     call (CmdGet key) (c_get (ElastiCache.client this) key) w1
       = (Fulfilled reply, w2) ->
     fst (ElastiCache.get this key parse w1) = Rejected (NotFound "Key not found"))
  /\ (forall v, fst (ElastiCache.get this key parse w1) <> Fulfilled v).
Proof.
  intros Hlaw Hdel. apply delete_fulfilled_inv in Hdel as (n & Hdel).
  assert (forall reply w2,
            call (CmdGet key) (c_get (ElastiCache.client this) key) w1
              = (Fulfilled reply, w2) -> reply = None) as Hnull.
  { intros reply w2 Hcall. apply call_fulfilled_inv in Hcall as (Hreply & _ & _).
    exact (Hlaw _ _ _ _ _ _ Hdel Hreply). }
  pose proof (get_by_reply key parse w1) as Hget. split.
  - intros reply w2 Hcall. rewrite Hget, Hcall. cbn [fst].
    now rewrite (Hnull _ _ Hcall).
  - intros v. rewrite Hget.
    destruct (call _ _ w1) as [[reply | thrown] w2] eqn:Hcall; cbn [fst];
      [| discriminate].
    rewrite (Hnull _ _ eq_refl). discriminate.
Qed.

End RoundTrips.

(** ** The teardown of the test suite *)

Section Teardown.
Context {S : Type} {codec : Codec} (cl : RedisClient S).

(** X19: The teardown always ends with the disconnect, it fails only when the
    disconnect does, and a purge that failed leaves its error on the console
    and nowhere else. *)
Theorem afterAll_always_disconnects (w : World S) :
  last (issued (snd (Suite.afterAll cl w))) = Some CmdDisconnect
  /\ (forall err,
        rejection (fst (Suite.afterAll cl w)) = Some err ->
        err = StoreFailure "Redis disconnection failed")
  /\ console (snd (Suite.afterAll cl w))
     = match fst (ElastiCache.deleteAll (Suite.cache cl) None w) with
       | Fulfilled _ => console w
       | Rejected err => (console w ++ [ErrorLine "Error cleaning up:" err])%list
       end.
Proof.
  assert (forall w0 : World S,
            last (issued (snd (ElastiCache.disconnect (Suite.cache cl) w0)))
              = Some CmdDisconnect
            /\ console (snd (ElastiCache.disconnect (Suite.cache cl) w0))
               = console w0
            /\ (forall err,
                  rejection (fst (ElastiCache.disconnect (Suite.cache cl) w0))
                    = Some err ->
                  err = StoreFailure "Redis disconnection failed"))
    as Hdisconnect.
  { intros w0.
    assert (sends [CmdDisconnect] (ElastiCache.disconnect (Suite.cache cl)))
      as Hsent by (open_method; by_cases_of_body sends_step).
    assert (silent (ElastiCache.disconnect (Suite.cache cl))) as Hquiet
      by (open_method; cbn [Suite.cache ElastiCache.dev when];
          by_cases_of_body silent_step).
    specialize (Hsent w0). specialize (Hquiet w0).
    rewrite Hsent, last_snoc.
    split; [reflexivity |]. split; [exact Hquiet |].
    intros err. unfold ElastiCache.disconnect. unfold_async.
    destruct (call _ _ w0) as [[[] | thrown] w2]; cbn; [discriminate |].
    intros [= <-]. reflexivity. }
  assert (silent (ElastiCache.deleteAll (Suite.cache cl) None)) as Hpurge.
  { unfold ElastiCache.deleteAll. cbv zeta.
    cbn [Suite.cache ElastiCache.dev when].
    by_cases_of_body
      ltac:(first [ apply silent_Promise_all_map; intro;
                    apply silent_delete; reflexivity
                  | silent_step ]). }
  specialize (Hpurge w).
  unfold Suite.afterAll, Suite.try_finally, try_catch, console_error.
  destruct (ElastiCache.deleteAll (Suite.cache cl) None w) as [[[] | err] w1];
    cbn [fst snd] in *.
  - destruct (Hdisconnect w1) as (Hlast & Hconsole & Hrej).
    destruct (ElastiCache.disconnect (Suite.cache cl) w1) as [[[] | err'] w2];
      cbn [fst snd] in *; repeat split; try assumption; try congruence;
      try discriminate.
  - match goal with
    | |- context [ElastiCache.disconnect _ ?w0] =>
        destruct (Hdisconnect w0) as (Hlast & Hconsole & Hrej);
        destruct (ElastiCache.disconnect (Suite.cache cl) w0)
          as [[[] | err'] w2]
    end; cbn [fst snd console] in *; repeat split; try assumption;
      try congruence; try discriminate.
Qed.

End Teardown.

(** ** The facade on the in-memory Redis, continued *)

Section OnMemRedisMore.
#[local] Existing Instance Json.codec.
Import Fixtures Scenes.

Lemma MemRedis_field_reads_as_set : field_reads_as_set MemRedis.client.
Proof.
  assert (forall field text fields,
            MemRedis.hget field (MemRedis.hset field text fields) = Some text)
    as Hhset.
  { intros field text fields. unfold MemRedis.hget.
    induction fields as [| [f v] fields IH]; cbn.
    - now rewrite String.eqb_refl.
    - destruct (String.eqb_spec f field) as [-> | Hne]; cbn.
      + now rewrite String.eqb_refl.
      + destruct (String.eqb_spec f field); [congruence | exact IH]. }
  intros key field text [[] db ttls] n s1 r s2; cbn; [| discriminate].
  destruct (db !! key) as [[t | items | fields] |] eqn:Hkey;
    try discriminate; intros [= <- <-]; cbn; rewrite lookup_insert_eq.
  - rewrite Hhset. congruence.
  - unfold MemRedis.hget. cbn. rewrite String.eqb_refl. cbn. congruence.
Qed.

Lemma MemRedis_tail_pops_as_pushed : tail_pops_as_pushed MemRedis.client.
Proof.
  intros key text [[] db ttls] n s1 r s2; cbn; [| discriminate].
  destruct (db !! key) as [[t | items | fields] |] eqn:Hkey;
    try discriminate; intros [= <- <-]; cbn; rewrite lookup_insert_eq.
  - rewrite last_snoc. congruence.
  - cbn. congruence.
Qed.

Lemma MemRedis_deleted_reads_null : deleted_reads_null MemRedis.client.
Proof.
  intros key [[] db ttls] n s1 r s2; cbn; [| discriminate].
  destruct (db !! key) as [entry |] eqn:Hkey; intros [= <- <-]; cbn.
  - rewrite lookup_delete_eq. congruence.
  - rewrite Hkey. congruence.
Qed.

(** [listRemove] sends [LREM] with count 0 and the text of the value, and
    nothing for a value that holds a BigInt. *)
Lemma primitive_sends_its_command_witness :
  commands_of (OpListRemove "queue" (VNum 7))
    = Some [CmdLRem "queue" 0 (Some "7")]
  /\ sends [CmdLRem "queue" 0 (Some "7")]
           (invoke cache (OpListRemove "queue" (VNum 7)))
  /\ commands_of (OpListRemove "queue" (VArr [VBigInt 7])) = Some []
  /\ sends [] (invoke cache (OpListRemove "queue" (VArr [VBigInt 7]))).
Proof.
  split; [reflexivity |].
  split;
    [apply (primitive_sends_its_command cache (OpListRemove "queue" (VNum 7)));
     reflexivity |].
  split; [reflexivity |].
  apply (primitive_sends_its_command cache
           (OpListRemove "queue" (VArr [VBigInt 7])));
    reflexivity.
Defined.

(** [set] of an object that holds a BigInt, on a fresh server. *)
Lemma unserializable_value_is_not_sent_witness :
  JSON_stringify (VObj [("views", VBigInt 1)]) = inl Json.TypeError_BigInt
  /\ fst (ElastiCache.set cache "post" (VObj [("views", VBigInt 1)]) None fresh)
     = Rejected (StoreFailure "Error saving to Redis")
  /\ same_store
       (snd (ElastiCache.set cache "post" (VObj [("views", VBigInt 1)]) None
               fresh))
       fresh.
Proof.
  assert (JSON_stringify (VObj [("views", VBigInt 1)])
          = inl Json.TypeError_BigInt) as Hthrows by reflexivity.
  split; [exact Hthrows |].
  destruct (unserializable_value_is_not_sent cache
              (VObj [("views", VBigInt 1)]) Json.TypeError_BigInt fresh Hthrows)
    as (Hset & _).
  apply Hset.
Defined.

(** [getAll] on a facade built with logging off. *)
Lemma logging_off_is_silent_witness :
  ElastiCache.dev late_cache = false /\ silent (invoke late_cache OpGetAll).
Proof.
  split; [reflexivity |].
  apply (logging_off_is_silent late_cache); reflexivity.
Defined.

(** [deleteAll] with logging on and with logging off. *)
Lemma logging_changes_no_outcome_witness :
  reads_whole_hash (OpDeleteAll None) = false
  /\ agree (invoke (ElastiCache.new MemRedis.client true) (OpDeleteAll None))
           (invoke (ElastiCache.new MemRedis.client false) (OpDeleteAll None)).
Proof.
  split; [reflexivity |].
  apply (logging_changes_no_outcome MemRedis.client true false); reflexivity.
Defined.

(** [hashGetAll] with logging on, over a client that answers [null]. *)
Lemma hashGetAll_null_witness :
  call (CmdHGetAll "missing")
       (c_hGetAll (ElastiCache.client nullish_dev_cache) "missing") fresh
    = (Fulfilled None, mkWorld MemRedis.empty [CmdHGetAll "missing"] [])
  /\ fst (ElastiCache.hashGetAll nullish_dev_cache "missing" None fresh)
     = Rejected (StoreFailure "Error finding the Redis hash").
Proof.
  split; [reflexivity |].
  apply (hashGetAll_null nullish_dev_cache "missing" None fresh
           (mkWorld MemRedis.empty [CmdHGetAll "missing"] [])).
  reflexivity.
Defined.

(** [hashGetAll] of the hash [profile], decoded. *)
Lemma hashGetAll_object_witness :
  call (CmdHGetAll "profile") (c_hGetAll MemRedis.client "profile") with_profile
    = (Fulfilled (Some profile_fields),
       mkWorld (store with_profile) [CmdHGetAll "profile"] [])
  /\ decodes_to profile_fields [("name", VStr "Ann"); ("age", VNum 30)]
  /\ ElastiCache.hashGetAll cache "profile" (Some true) with_profile
     = (Fulfilled (VObj [("name", VStr "Ann"); ("age", VNum 30)]),
        mkWorld (store with_profile) [CmdHGetAll "profile"] []).
Proof.
  assert (call (CmdHGetAll "profile") (c_hGetAll MemRedis.client "profile")
               with_profile
          = (Fulfilled (Some profile_fields),
             mkWorld (store with_profile) [CmdHGetAll "profile"] [])) as Hcall
    by (vm_compute; reflexivity).
  assert (decodes_to profile_fields [("name", VStr "Ann"); ("age", VNum 30)])
    as Hdecode by (repeat constructor).
  split; [exact Hcall |]. split; [exact Hdecode |].
  destruct (hashGetAll_object cache "profile" profile_fields with_profile _ Hcall)
    as (_ & Hparsed & _).
  apply Hparsed, Hdecode.
Defined.

(** [listGet] of a key that holds no list. *)
Lemma listGet_rejects_with_StoreFailure_only_witness :
  rejection (fst (ElastiCache.listGet cache "missing" None None None fresh))
    = Some (new_HttpError "Error fetching from Redis list" 500)
  /\ new_HttpError "Error fetching from Redis list" 500
     = StoreFailure "Error fetching from Redis list".
Proof.
  split; [reflexivity |].
  apply (listGet_rejects_with_StoreFailure_only cache "missing" None None None
           fresh).
  reflexivity.
Defined.

(** [getByPrefix] on a client that is not connected. *)
Lemma enumeration_failure_witness :
  enumeration_of (OpGetByPrefix "users")
    = Some ("users:*", "Error fetching keys by prefix")
  /\ call (CmdKeys "users:*") (c_keys MemRedis.client "users:*") offline
     = (Rejected (Native MemRedis.ClientClosedError),
        mkWorld (store offline) [CmdKeys "users:*"] [])
  /\ fst (invoke cache (OpGetByPrefix "users") offline)
     = Rejected (StoreFailure "Error fetching keys by prefix")
  /\ issued (snd (invoke cache (OpGetByPrefix "users") offline))
     = [CmdKeys "users:*"].
Proof.
  split; [reflexivity |]. split; [reflexivity |].
  apply (enumeration_failure cache (OpGetByPrefix "users") "users:*"
           "Error fetching keys by prefix" offline
           (mkWorld (store offline) [CmdKeys "users:*"] [])
           (Native MemRedis.ClientClosedError)); reflexivity.
Defined.

(** [getAll] on a connection that closes after the first key was read. *)
Lemma getAll_type_failure_witness :
  call (CmdKeys "*") (c_keys (ElastiCache.client fading_cache) "*")
       three_commands_left
    = (Fulfilled ["a"; "b"],
       mkWorld (2%nat, store two_keys) [CmdKeys "*"] [])
  /\ Snapshot fading_cache (mkWorld (2%nat, store two_keys) [CmdKeys "*"] [])
       ["a"] ["string"] [("a", VNum 1)]
       (mkWorld (0%nat, store two_keys)
          [CmdKeys "*"; CmdType "a"; CmdGet "a"] [])
  /\ fst (ElastiCache.getAll fading_cache three_commands_left)
     = Rejected (StoreFailure "Error fetching all keys from Redis").
Proof.
  assert (call (CmdKeys "*") (c_keys (ElastiCache.client fading_cache) "*")
               three_commands_left
          = (Fulfilled ["a"; "b"],
             mkWorld (2%nat, store two_keys) [CmdKeys "*"] [])) as Hkeys
    by (vm_compute; reflexivity).
  assert (Snapshot fading_cache
            (mkWorld (2%nat, store two_keys) [CmdKeys "*"] [])
            ["a"] ["string"] [("a", VNum 1)]
            (mkWorld (0%nat, store two_keys)
               [CmdKeys "*"; CmdType "a"; CmdGet "a"] [])) as Hsnap.
  { eapply (Snapshot_read fading_cache _ "a" "string"
              (mkWorld (1%nat, store two_keys) [CmdKeys "*"; CmdType "a"] [])
              (ElastiCache.get fading_cache "a" (Some true)) (VNum 1)
              (mkWorld (0%nat, store two_keys)
                 [CmdKeys "*"; CmdType "a"; CmdGet "a"] []));
      [vm_compute; reflexivity | reflexivity | vm_compute; reflexivity |].
    apply Snapshot_done. }
  split; [exact Hkeys |]. split; [exact Hsnap |].
  apply (getAll_type_failure fading_cache ["a"; "b"] ["a"] [] ["string"] "b"
           [("a", VNum 1)] three_commands_left _ _
           (mkWorld (0%nat, store two_keys)
              [CmdKeys "*"; CmdType "a"; CmdGet "a"; CmdType "b"] [])
           (Native MemRedis.ClientClosedError) Hkeys eq_refl Hsnap).
  vm_compute; reflexivity.
Defined.

(** The hash test of the suite: [hashSet] then [hashGet] of an object. *)
Lemma hashSet_hashGet_round_trip_witness :
  field_reads_as_set MemRedis.client
  /\ JSON_stringify john = inr (Some john_text)
  /\ JSON_parse john_text = inr john
  /\ exists (w1 w2 : World MemRedis.Store) (r : JsValue),
       ElastiCache.hashSet cache "test:hash1" "field1" john fresh
         = (Fulfilled tt, w1)
       /\ ElastiCache.hashGet cache "test:hash1" "field1" (Some true) w1
          = (Fulfilled r, w2)
       /\ r = john.
Proof.
  split; [exact MemRedis_field_reads_as_set |].
  split; [reflexivity |]. split; [reflexivity |].
  eexists _, _, _.
  split; [vm_compute; reflexivity |]. split; [vm_compute; reflexivity |].
  eapply (hashSet_hashGet_round_trip cache "test:hash1" "field1" john _
            john_text fresh).
  - exact MemRedis_field_reads_as_set.
  - reflexivity.
  - reflexivity.
  - vm_compute; reflexivity.
  - vm_compute; reflexivity.
Defined.

(** [listPush] then [listPop] of an object. *)
Lemma listPush_listPop_round_trip_witness :
  tail_pops_as_pushed MemRedis.client
  /\ JSON_stringify john = inr (Some john_text)
  /\ JSON_parse john_text = inr john
  /\ exists (w1 w2 : World MemRedis.Store) (r : JsValue),
       ElastiCache.listPush cache "test:list1" john fresh = (Fulfilled tt, w1)
       /\ ElastiCache.listPop cache "test:list1" (Some true) w1
          = (Fulfilled r, w2)
       /\ r = john.
Proof.
  split; [exact MemRedis_tail_pops_as_pushed |].
  split; [reflexivity |]. split; [reflexivity |].
  eexists _, _, _.
  split; [vm_compute; reflexivity |]. split; [vm_compute; reflexivity |].
  eapply (listPush_listPop_round_trip cache "test:list1" john _ john_text fresh).
  - exact MemRedis_tail_pops_as_pushed.
  - reflexivity.
  - reflexivity.
  - vm_compute; reflexivity.
  - vm_compute; reflexivity.
Defined.

(** The delete test of the suite: [get] after [delete]. *)
Lemma get_after_delete_witness :
  deleted_reads_null MemRedis.client
  /\ ElastiCache.delete cache "kept" kept_only
     = (Fulfilled tt, mkWorld MemRedis.empty [CmdDel "kept"] [])
  /\ fst (ElastiCache.get cache "kept" None
            (mkWorld MemRedis.empty [CmdDel "kept"] []))
     = Rejected (NotFound "Key not found").
Proof.
  assert (ElastiCache.delete cache "kept" kept_only
          = (Fulfilled tt, mkWorld MemRedis.empty [CmdDel "kept"] [])) as Hdel
    by (vm_compute; reflexivity).
  split; [exact MemRedis_deleted_reads_null |]. split; [exact Hdel |].
  destruct (get_after_delete cache "kept" None kept_only _
              MemRedis_deleted_reads_null Hdel) as [Hnull _].
  apply (Hnull None (mkWorld MemRedis.empty [CmdDel "kept"; CmdGet "kept"] [])).
  reflexivity.
Defined.

End OnMemRedisMore.
